(** * tcp::Server: the epoll event loop and its worker-side connection handling

    A shallow embedding of [include/tcp/server.h].  The kernel is an explicit
    [World] (open descriptors, the epoll interest list), the thread pool is
    its task queue, and everything the process does (system calls, handler
    callbacks) is appended to a trace.  Whatever the kernel decides (the
    result of [accept], [read], [epoll_ctl], ...) is an input of the
    function that performs the call. *)

From Stdlib Require Import ZArith Strings.Byte.
From stdpp Require Import base numbers list strings gmap sets.

Open Scope Z_scope.

(** ** Errors ([utils.h]) *)

Module Kind.
(** Modelled from the spec: [Error::Kind] of utils.h, which is not among the
    sources.  The enumerators are the ones server.h names, and [Write], the
    kind of a failed write. *)
Inductive t : Set :=
| EpollCreation | SocketCreation | SocketBinding | SocketListening
| EpollAdd | EpollWait | Read | Write.

#[global] Instance eq_dec : EqDecision t.
Proof. solve_decision. Defined.

(** Setup errors are the fatal ones (creation, bind, listen, registration,
    wait); read and write errors are local to one connection. *)
Definition is_setup (k : t) : bool :=
  match k with
  | Read | Write => false
  | _ => true
  end.
End Kind.

(** Modelled from the spec: [Error] of utils.h, an immutable pair of a
    message and a kind, built in server.h as [Error(message, kind)]. *)
Record Error : Set := mkError { what : string; kind : Kind.t }.

#[global] Instance Error_eq_dec : EqDecision Error.
Proof. solve_decision. Defined.

(** ** Plain data *)

(** [sockaddr_in]; [sockaddr_in{}] is all zeroes. *)
Record sockaddr_in : Set := mkAddr { sin_family : Z; sin_port : Z; sin_addr : Z }.

#[global] Instance sockaddr_in_eq_dec : EqDecision sockaddr_in.
Proof. solve_decision. Defined.

Definition sockaddr_zero : sockaddr_in := mkAddr 0 0 0.

(** [epoll_event]: the event mask and the descriptor stored in [data.fd]. *)
Record epoll_event : Set := mkEvent { events : Z; data_fd : Z }.

Definition EPOLLIN : Z := 0x001.
Definition EPOLLHUP : Z := 0x010.

(** [enum UpdateKind]. *)
Inductive UpdateKind : Set := New | Read.

(** The closures that [Run] pushes to the thread pool, one constructor per
    lambda, with the values each one captures (the handler is captured by
    reference and is supplied when the closure runs). *)
Inductive Task : Set :=
| TNew (client_fd : Z)
| TRead (client_fd : Z) (in_buf : list byte)
| TOnError (client_addr : sockaddr_in) (e : Error)
| TOnClose (client_addr : sockaddr_in).

(** What the process does, in order. *)
Inductive Action : Set :=
| SysEpollCreate (ret : Z)
| SysSocket (ret : Z)
| SysSetsockopt (fd : Z)
| SysBind (fd : Z) (port : Z)
| SysListen (fd : Z)
| SysEpollAdd (epfd fd : Z)
| SysEpollWait (epfd : Z)
| SysAccept (fd : Z)
| SysRead (fd : Z) (count : nat)
| SysGetpeername (fd : Z)
| SysWrite (fd : Z) (buf : list byte)
| SysClose (fd : Z)
| CallOnNew (a : sockaddr_in)
| CallOnRead (a : sockaddr_in) (in_bytes : list byte)
| CallOnClose (a : sockaddr_in)
| CallOnError (a : sockaddr_in) (e : Error).

Definition is_call (a : Action) : bool :=
  match a with
  | CallOnNew _ | CallOnRead _ _ | CallOnClose _ | CallOnError _ _ => true
  | _ => false
  end.

(** ** The world outside the server object *)

Record World : Type := mkWorld {
  open_fds : gset Z;      (* descriptors open in the process *)
  interest : gset Z;      (* descriptors registered with the epoll instance *)
  queue : list Task;      (* the thread pool's pending tasks, oldest first *)
  trace : list Action;    (* everything done so far, oldest first *)
}.

Definition world0 : World := mkWorld ∅ ∅ [] [].

Definition log (a : Action) (w : World) : World :=
  mkWorld (open_fds w) (interest w) (queue w) (trace w ++ [a]).

Definition set_open (f : gset Z -> gset Z) (w : World) : World :=
  mkWorld (f (open_fds w)) (interest w) (queue w) (trace w).

Definition set_interest (f : gset Z -> gset Z) (w : World) : World :=
  mkWorld (open_fds w) (f (interest w)) (queue w) (trace w).

(** ** A state and exception monad for code that may [throw] *)

Inductive Res (A : Type) : Type :=
| Ok (a : A)
| Throw (e : Error).
Arguments Ok {A} a.
Arguments Throw {A} e.

Definition M (A : Type) : Type := World -> Res A * World.

Definition ret {A} (a : A) : M A := fun w => (Ok a, w).

Definition bind {A B} (m : M A) (k : A -> M B) : M B :=
  fun w => match m w with
           | (Ok a, w') => k a w'
           | (Throw e, w') => (Throw e, w')
           end.

Definition throw {A} (msg : string) (k : Kind.t) : M A :=
  fun w => (Throw (mkError msg k), w).

(** A step that cannot throw. *)
Definition lift {A} (f : World -> A * World) : M A :=
  fun w => let '(a, w') := f w in (Ok a, w').

Declare Scope srv_scope.
Delimit Scope srv_scope with srv.
Notation "x <- c1 ;; c2" := (bind c1 (fun x => c2))
  (at level 100, c1 at next level, right associativity) : srv_scope.

(** ** System calls

    Each takes the value the kernel returns and applies the side effect that
    goes with it. *)

(** [epoll_create1(0)] and [socket(...)]: a descriptor, or -1. *)
Definition sys_epoll_create1 (ret_fd : Z) (w : World) : Z * World :=
  let w := log (SysEpollCreate ret_fd) w in
  (ret_fd, if ret_fd =? -1 then w else set_open (union {[ret_fd]}) w).

Definition sys_socket (ret_fd : Z) (w : World) : Z * World :=
  let w := log (SysSocket ret_fd) w in
  (ret_fd, if ret_fd =? -1 then w else set_open (union {[ret_fd]}) w).

Definition sys_setsockopt (r : Z) (fd : Z) (w : World) : Z * World :=
  (r, log (SysSetsockopt fd) w).

Definition sys_bind (r : Z) (fd port : Z) (w : World) : Z * World :=
  (r, log (SysBind fd port) w).

Definition sys_listen (r : Z) (fd : Z) (w : World) : Z * World :=
  (r, log (SysListen fd) w).

(** [epoll_ctl(epfd, EPOLL_CTL_ADD, fd, &ev)]: 0 and [fd] joins the interest
    list, or -1 and nothing changes. *)
Definition sys_epoll_ctl_add (r : Z) (epfd fd : Z) (w : World) : Z * World :=
  let w := log (SysEpollAdd epfd fd) w in
  (r, if r =? -1 then w else set_interest (union {[fd]}) w).

(** [accept]: the new descriptor, or -1. *)
Definition sys_accept (ret_fd : Z) (fd : Z) (w : World) : Z * World :=
  let w := log (SysAccept fd) w in
  (ret_fd, if ret_fd =? -1 then w else set_open (union {[ret_fd]}) w).

(** [close(fd)]: the descriptor is gone, and with it its epoll registration. *)
Definition sys_close (fd : Z) (w : World) : World :=
  let w := log (SysClose fd) w in
  set_interest (fun s => s ∖ {[fd]}) (set_open (fun s => s ∖ {[fd]}) w).

(** [read(fd, buf, count)].  [pending] is what the kernel has for this call:
    [None] when the read fails, [Some d] when it succeeds with the bytes [d]
    at hand ([Some []] is end of stream).  At most [count] bytes are copied
    to the front of [buf]; the rest of [buf] is untouched.  A socket read of
    [count = 0] returns 0 at once. *)
Definition sys_read (pending : option (list byte)) (fd : Z)
    (buf : list byte) (count : nat) (w : World) : Z * list byte * World :=
  let w := log (SysRead fd count) w in
  match count, pending with
  | O, _ => (0, buf, w)
  | _, None => (-1, buf, w)
  | _, Some d =>
      let got := take count d in
      (Z.of_nat (length got), got ++ drop (length got) buf, w)
  end.

(** ** Helpers of [utils.h] *)

(** What [getpeername] gives [GetClientAddress]. *)
Inductive peer_result : Set :=
| PeerOk (a : sockaddr_in)
| PeerErr (e : Error).

(** Modelled from the spec: [GetClientAddress] of utils.h is not among the
    sources.  It resolves the peer address of a handle and, when resolution
    fails, throws an [Error]. *)
Definition GetClientAddress (p : peer_result) (client_fd : Z) : M sockaddr_in :=
  fun w =>
    let w := log (SysGetpeername client_fd) w in
    match p with
    | PeerOk a => (Ok a, w)
    | PeerErr e => (Throw e, w)
    end.

(** Modelled from the spec: [Write] of utils.h is not among the sources.  It
    writes the output sequence to the connection and, when the write fails,
    throws a connection error of kind [Write].  [failure] is [None] when the
    write succeeds and the error message otherwise. *)
Definition Write (failure : option string) (client_fd : Z) (buf : list byte) : M unit :=
  fun w =>
    let w := log (SysWrite client_fd buf) w in
    match failure with
    | None => (Ok tt, w)
    | Some msg => (Throw (mkError msg Kind.Write), w)
    end.

(** Modelled from the spec: [ThreadPool::Push] of thread_pool.h, which is not
    among the sources.  Submit appends the unit of work to the shared queue;
    it never blocks and never rejects. *)
Definition Push (t : Task) (w : World) : World :=
  mkWorld (open_fds w) (interest w) (queue w ++ [t]) (trace w).

(** ** The handler

    [Server] is a template over the handler type; the handler's methods may
    change the handler object, and [OnNew]/[OnRead] fill [out_buf] (passed by
    reference, given here and returned) and say whether to keep the
    connection. *)
Class Handler (H : Type) : Type := {
  OnNew : H -> sockaddr_in -> list byte -> H * list byte * bool;
  OnRead : H -> sockaddr_in -> list byte -> list byte -> H * list byte * bool;
  OnClose : H -> sockaddr_in -> H;
  OnError : H -> sockaddr_in -> Error -> H;
}.

(** ** The server object *)

Record Server : Set := mkServer {
  _epoll_fd : Z;
  _port : Z;
  _buf_size : nat;
  _max_events : Z;
  _server_fd : Z;
  _thread_pool : nat;     (* the pool, by its number of workers *)
}.

(** What the kernel answers during construction. *)
Record CtorEnv : Set := mkCtorEnv {
  k_epoll_create1 : Z;
  k_socket : Z;
  k_setsockopt : Z;
  k_bind : Z;
}.

(** [Server::Server].  The member initialisers run first, in declaration
    order: both descriptors are requested before anything is checked.  A
    [throw] leaves the constructor without an object: [~Server] does not run
    for it. *)
Definition Server_ctor (port : Z) (threads buf_size : nat) (max_events : Z)
    (k : CtorEnv) : M Server :=
  (epoll_fd <- lift (sys_epoll_create1 (k_epoll_create1 k)) ;;
   server_fd <- lift (sys_socket (k_socket k)) ;;
   if max_events <=? 0 then
     throw "Invalid max events." Kind.EpollCreation
   else if epoll_fd =? -1 then
     throw "Failed to create epoll instance." Kind.EpollCreation
   else if server_fd =? -1 then
     throw "Failed to create server socket." Kind.SocketCreation
   else
     r <- lift (sys_setsockopt (k_setsockopt k) server_fd) ;;
     if r =? -1 then
       throw "Failed to set socket options." Kind.SocketCreation
     else
       r <- lift (sys_bind (k_bind k) server_fd port) ;;
       if r =? -1 then
         throw "Failed to bind server socket." Kind.SocketBinding
       else
         ret (mkServer epoll_fd port buf_size max_events server_fd threads))%srv.

(** [Server::~Server]. *)
Definition Server_dtor (srv : Server) (w : World) : World :=
  sys_close (_server_fd srv) (sys_close (_epoll_fd srv) w).

(** ** The loop thread: one ready notification *)

(** What the kernel answers while one notification is handled. *)
Record EventEnv : Set := mkEventEnv {
  k_accept : Z;                     (* accept: new descriptor or -1 *)
  k_epoll_ctl : Z;                  (* epoll_ctl: 0 or -1 *)
  k_read : option (list byte);      (* read, see [sys_read] *)
  k_peer : peer_result;             (* getpeername *)
}.

(** [try { client_addr = GetClientAddress(fd); } catch (const Error &) {}]
    on a [client_addr] that starts as [sockaddr_in{}]. *)
Definition address_or_default (p : peer_result) (client_fd : Z) (w : World)
    : sockaddr_in * World :=
  match GetClientAddress p client_fd w with
  | (Ok a, w') => (a, w')
  | (Throw _, w') => (sockaddr_zero, w')
  end.

(** The body of [for (int i = 0; i < num_events; ++i)] in [Run]. *)
Definition process_event (srv : Server) (ev : epoll_event) (k : EventEnv)
    (w : World) : World :=
  if negb (Z.land (events ev) EPOLLHUP =? 0) then
    w                                                        (* continue *)
  else if data_fd ev =? _server_fd srv then
    let '(client_fd, w) := sys_accept (k_accept k) (_server_fd srv) w in
    if client_fd =? -1 then
      w                                                      (* continue *)
    else
      let '(r, w) := sys_epoll_ctl_add (k_epoll_ctl k) (_epoll_fd srv) client_fd w in
      if r =? -1 then
        sys_close client_fd w                                (* continue *)
      else
        Push (TNew client_fd) w
  else
    let client_fd := data_fd ev in
    let in_buf := replicate (_buf_size srv) x00 in
    let '(n, in_buf, w) := sys_read (k_read k) client_fd in_buf (length in_buf) w in
    if n =? -1 then
      let '(client_addr, w) := address_or_default (k_peer k) client_fd w in
      let w := sys_close client_fd w in
      Push (TOnError client_addr (mkError "Failed to read from a client." Kind.Read)) w
    else if n =? 0 then
      let '(client_addr, w) := address_or_default (k_peer k) client_fd w in
      let w := sys_close client_fd w in
      Push (TOnClose client_addr) w
    else
      Push (TRead client_fd in_buf) w.

(** The [for] loop over the first [num_events] entries of [events]. *)
Definition process_events (srv : Server) (num_events : Z)
    (evs : list (epoll_event * EventEnv)) (w : World) : World :=
  foldl (fun w ek => process_event srv ek.1 ek.2 w) w (take (Z.to_nat num_events) evs).

(** ** The worker side *)

(** What the kernel answers while a worker runs one task. *)
Record WorkerEnv : Set := mkWorkerEnv {
  k_wpeer : peer_result;            (* getpeername *)
  k_write : option string;          (* Write: None, or the failure *)
}.

Section WithHandler.
Context {H : Type} `{!Handler H}.

Definition call_OnError (handler : H) (a : sockaddr_in) (e : Error) (w : World)
    : H * World :=
  (OnError handler a e, log (CallOnError a e) w).

Definition call_OnClose (handler : H) (a : sockaddr_in) (w : World) : H * World :=
  (OnClose handler a, log (CallOnClose a) w).

(** [HandleConnUpdate<UK>(Handler handler, client_fd, in_buf)].  [handler]
    is the function's own parameter object; the result pairs its final
    state with the world. *)
Definition HandleConnUpdate (UK : UpdateKind) (handler : H) (client_fd : Z)
    (in_buf : list byte) (k : WorkerEnv) (w : World) : H * World :=
  match GetClientAddress (k_wpeer k) client_fd w with
  | (Throw error, w) =>
      let w := sys_close client_fd w in
      call_OnError handler sockaddr_zero error w
  | (Ok client_addr, w) =>
      let out_buf : list byte := [] in
      let '(handler, out_buf, keep_alive, w) :=
        match UK with
        | New =>
            let '(h, out, ka) := OnNew handler client_addr out_buf in
            (h, out, ka, log (CallOnNew client_addr) w)
        | Read =>
            let '(h, out, ka) := OnRead handler client_addr in_buf out_buf in
            (h, out, ka, log (CallOnRead client_addr in_buf) w)
        end in
      match Write (k_write k) client_fd out_buf w with
      | (Throw e, w) =>
          let w := sys_close client_fd w in
          call_OnError handler client_addr e w
      | (Ok _, w) =>
          if negb keep_alive then (handler, sys_close client_fd w)
          else (handler, w)
      end
  end.

(** Running one of the closures of [Run].  [handler] is the object that
    [Run] was given: the closures hold a reference to it.  The two
    [HandleConnUpdate] closures pass it by value, so the callee works on a
    copy that dies with the call; the other two call it directly. *)
Definition run_task (t : Task) (k : WorkerEnv) (handler : H) (w : World)
    : H * World :=
  match t with
  | TNew client_fd =>
      let '(_, w) := HandleConnUpdate New handler client_fd [] k w in
      (handler, w)
  | TRead client_fd in_buf =>
      let '(_, w) := HandleConnUpdate Read handler client_fd in_buf k w in
      (handler, w)
  | TOnError client_addr e => call_OnError handler client_addr e w
  | TOnClose client_addr => call_OnClose handler client_addr w
  end.
End WithHandler.

(** ** [Run] *)

(** What [epoll_wait] gives in one call: an error, or the ready
    notifications, each with the kernel's answers for its handling. *)
Inductive wait_result : Set :=
| WaitErr
| WaitOk (evs : list (epoll_event * EventEnv)).

(** [epoll_wait(epfd, events, maxevents, -1)]: -1, or the number of entries
    written to [events], never more than [maxevents]. *)
Definition sys_epoll_wait (r : wait_result) (epfd maxevents : Z) (w : World)
    : Z * list (epoll_event * EventEnv) * World :=
  let w := log (SysEpollWait epfd) w in
  match r with
  | WaitErr => (-1, [], w)
  | WaitOk evs =>
      let evs := take (Z.to_nat maxevents) evs in
      (Z.of_nat (length evs), evs, w)
  end.

(** What the kernel answers before the loop starts. *)
Record RunEnv : Set := mkRunEnv {
  k_listen : Z;
  k_epoll_add : Z;
}.

(** The statements of [Run] before the loop. *)
Definition run_prologue (srv : Server) (k : RunEnv) : M unit :=
  (r <- lift (sys_listen (k_listen k) (_server_fd srv)) ;;
   if r =? -1 then
     throw "Failed to listen on server socket." Kind.SocketListening
   else
     r <- lift (sys_epoll_ctl_add (k_epoll_add k) (_epoll_fd srv) (_server_fd srv)) ;;
     if r =? -1 then
       throw "Failed to add server socket to epoll instance." Kind.EpollAdd
     else
       ret tt)%srv.

(** How one iteration of a loop ends when it does not throw. *)
Inductive Ctl : Set := Next | Break.

(** The body of [while (true)] in [Run], for one answer of [epoll_wait]. *)
Definition loop_body (srv : Server) (r : wait_result) : M Ctl :=
  fun w =>
    let '(num_events, evs, w) := sys_epoll_wait r (_epoll_fd srv) (_max_events srv) w in
    if num_events =? -1 then
      throw "Failed to wait for events." Kind.EpollWait w
    else
      (Ok Next, process_events srv num_events evs w).

(** How a call of [Run] stands after a finite script of [epoll_wait]
    answers: it has returned, it has thrown, or it is inside the loop
    waiting for the next answer. *)
Inductive RunResult : Set :=
| Returned
| Thrown (e : Error)
| Blocked.

(** [while (true) body], one iteration per answer of the script. *)
Fixpoint while_true (body : wait_result -> M Ctl) (script : list wait_result)
    (w : World) : RunResult * World :=
  match script with
  | [] => (Blocked, w)
  | r :: script =>
      match body r w with
      | (Ok Next, w) => while_true body script w
      | (Ok Break, w) => (Returned, w)
      | (Throw e, w) => (Thrown e, w)
      end
  end.

(** [Server::Run]. *)
Definition Run (srv : Server) (k : RunEnv) (script : list wait_result)
    (w : World) : RunResult * World :=
  match run_prologue srv k w with
  | (Throw e, w) => (Thrown e, w)
  | (Ok _, w) => while_true (loop_body srv) script w
  end.

(** ** [Run] with the allocations of its buffers

    [Run] builds two vectors: the array of events before the loop and the
    receive buffer at each notification of a connection.  The constructor
    of a vector throws [std::length_error] when the count is above
    [max_size()] and [std::bad_alloc] when the allocator has no memory.
    [process_event], [loop_body] and [Run] above are the code on the path
    where every allocation succeeds; the definitions below add the
    allocations, the allocator's answer being an input like the kernel's. *)

Inductive StdException : Set := length_error | bad_alloc.

(** What can leave [Run]: an [Error] of the server, or an exception of the
    standard library. *)
Inductive Exception : Set :=
| ServerError (e : Error)
| StdError (x : StdException).

Definition PTRDIFF_MAX : Z := 2^63 - 1.
Definition SIZE_MODULUS : Z := 2^64.
Definition sizeof_epoll_event : Z := 12.

(** [std::vector<T> v(count)] for a [T] of [elem_size] bytes: the exception
    it throws, if any.  [max_size()] is [PTRDIFF_MAX / sizeof(T)]; a vector
    of no elements allocates nothing; [mem] says whether the allocator has
    the memory. *)
Definition vector_ctor (count elem_size : Z) (mem : bool) : option StdException :=
  if PTRDIFF_MAX / elem_size <? count then Some length_error
  else if (count =? 0) || mem then None
  else Some bad_alloc.

(** The body of the [for] loop with the allocation of [in_buf]: a
    notification that reaches [std::vector<std::byte> in_buf(_buf_size)]
    leaves the loop by the exception of that constructor, before the read,
    or goes on as [process_event]. *)
Definition process_event_alloc (srv : Server) (ev : epoll_event) (k : EventEnv)
    (mem : bool) (w : World) : option StdException * World :=
  if negb (Z.land (events ev) EPOLLHUP =? 0) then
    (None, w)                                                (* continue *)
  else if data_fd ev =? _server_fd srv then
    (None, process_event srv ev k w)
  else
    match vector_ctor (Z.of_nat (_buf_size srv)) 1 mem with
    | Some x => (Some x, w)
    | None => (None, process_event srv ev k w)
    end.

(** The [for] loop from index [i] on; [mem i] is the allocator's answer at
    the [i]-th notification of the batch. *)
Fixpoint process_events_alloc (srv : Server) (mem : nat -> bool) (i : nat)
    (evs : list (epoll_event * EventEnv)) (w : World) : option StdException * World :=
  match evs with
  | [] => (None, w)
  | (ev, k) :: evs =>
      match process_event_alloc srv ev k (mem i) w with
      | (Some x, w) => (Some x, w)
      | (None, w) => process_events_alloc srv mem (S i) evs w
      end
  end.

(** The body of [while (true)] for one answer of [epoll_wait] and the
    allocator's answers during that iteration. *)
Definition loop_body_alloc (srv : Server) (r : wait_result * (nat -> bool)) (w : World)
    : (Exception + Ctl) * World :=
  let '(num_events, evs, w) := sys_epoll_wait r.1 (_epoll_fd srv) (_max_events srv) w in
  if num_events =? -1 then
    (inl (ServerError (mkError "Failed to wait for events." Kind.EpollWait)), w)
  else
    match process_events_alloc srv r.2 0 (take (Z.to_nat num_events) evs) w with
    | (Some x, w) => (inl (StdError x), w)
    | (None, w) => (inr Next, w)
    end.

(** How a call of [Run] stands after a finite script: it has returned, an
    exception has left it, or it is inside the loop waiting. *)
Inductive RunOutcome : Set :=
| Returns
| Throws (x : Exception)
| Waits.

Fixpoint while_true_alloc
    (body : wait_result * (nat -> bool) -> World -> (Exception + Ctl) * World)
    (script : list (wait_result * (nat -> bool))) (w : World) : RunOutcome * World :=
  match script with
  | [] => (Waits, w)
  | r :: script =>
      match body r w with
      | (inr Next, w) => while_true_alloc body script w
      | (inr Break, w) => (Returns, w)
      | (inl x, w) => (Throws x, w)
      end
  end.

(** [Server::Run] with its allocations.  [events_mem] is the allocator's
    answer for [std::vector<epoll_event> events(_max_events)], whose count
    is [_max_events] converted to [size_t]. *)
Definition Run_alloc (srv : Server) (k : RunEnv) (events_mem : bool)
    (script : list (wait_result * (nat -> bool))) (w : World) : RunOutcome * World :=
  match run_prologue srv k w with
  | (Throw e, w) => (Throws (ServerError e), w)
  | (Ok _, w) =>
      match vector_ctor (_max_events srv mod SIZE_MODULUS) sizeof_epoll_event events_mem with
      | Some x => (Throws (StdError x), w)
      | None => while_true_alloc (loop_body_alloc srv) script w
      end
  end.

(** [Run]'s outcome read as an outcome of [Run_alloc]. *)
Definition outcome_of (r : RunResult) : RunOutcome :=
  match r with
  | Returned => Returns
  | Thrown e => Throws (ServerError e)
  | Blocked => Waits
  end.

(** ** The loop thread and the workers together

    The loop thread handles one notification per step; a free worker takes
    the oldest queued task; a worker that holds a task finishes it.  Tasks
    "in flight" are the queued ones and the ones held by workers. *)

(** The handle a task refers to: only the two [HandleConnUpdate] closures
    capture one. *)
Definition task_fd (t : Task) : option Z :=
  match t with
  | TNew fd | TRead fd _ => Some fd
  | TOnError _ _ | TOnClose _ => None
  end.

Definition refers_to (h : Z) (t : Task) : bool := bool_decide (task_fd t = Some h).

Definition count_refs (h : Z) (ts : list Task) : nat :=
  length (filter (fun t => refers_to h t = true) ts).

Record System (H : Type) : Type := mkSystem {
  sys_world : World;
  sys_handler : H;             (* the handler object given to [Run] *)
  sys_running : list Task;     (* tasks held by workers *)
}.
Arguments mkSystem {H}.
Arguments sys_world {H}.
Arguments sys_handler {H}.
Arguments sys_running {H}.

Definition in_flight {H} (s : System H) : list Task :=
  queue (sys_world s) ++ sys_running s.

Inductive Label : Set :=
| LEvent (ev : epoll_event) (k : EventEnv)    (* loop thread: one notification *)
| LTake                                       (* a free worker takes a task *)
| LFinish (i : nat) (k : WorkerEnv).          (* the i-th busy worker finishes *)

Section Interleaving.
Context {H : Type} `{!Handler H}.
Variable srv : Server.

(** The kernel reports only the listening socket and registered
    descriptors, and [accept] yields a descriptor that is not open. *)
Definition event_possible (ev : epoll_event) (k : EventEnv) (w : World) : bool :=
  bool_decide (data_fd ev ∈ interest w)
  && bool_decide (k_accept k = -1 ∨ (0 <= k_accept k ∧ k_accept k ∉ open_fds w)).

(** Modelled from the spec: the workers of thread_pool.h, which is not among
    the sources.  Each worker waits for a work item, removes exactly one from
    the queue (the oldest), executes it, and repeats; there are as many
    workers as the pool was built with.  The loop thread's step is
    [process_event]. *)
Definition sys_step (l : Label) (s : System H) : option (System H) :=
  match l with
  | LEvent ev k =>
      if event_possible ev k (sys_world s) then
        Some (mkSystem (process_event srv ev k (sys_world s))
                       (sys_handler s) (sys_running s))
      else None
  | LTake =>
      match queue (sys_world s) with
      | t :: q =>
          if bool_decide (length (sys_running s) < _thread_pool srv)%nat then
            let w := sys_world s in
            Some (mkSystem (mkWorld (open_fds w) (interest w) q (trace w))
                           (sys_handler s) (sys_running s ++ [t]))
          else None
      | [] => None
      end
  | LFinish i k =>
      match sys_running s !! i with
      | Some t =>
          let '(h, w) := run_task t k (sys_handler s) (sys_world s) in
          Some (mkSystem w h (delete i (sys_running s)))
      | None => None
      end
  end.

Fixpoint sys_steps (ls : list Label) (s : System H) : option (System H) :=
  match ls with
  | [] => Some s
  | l :: ls =>
      match sys_step l s with
      | Some s' => sys_steps ls s'
      | None => None
      end
  end.

(** The state when the loop is entered: nothing queued, no worker busy. *)
Definition entered (s : System H) : Prop :=
  queue (sys_world s) = [] ∧ sys_running s = []
  ∧ _server_fd srv ∈ interest (sys_world s).

Definition reachable (s : System H) : Prop :=
  ∃ s0 ls, entered s0 ∧ sys_steps ls s0 = Some s.
End Interleaving.

(** ** [main] ([app/main.cpp]) *)

Definition PORT : Z := 8080.
Definition EVENTS : Z := 16.
Definition THREADS : nat := 4.
Definition BUFFER_SIZE : nat := 1024.
Definition EXIT_FAILURE : Z := 1.

(** What [main] prints: a line on [std::cout], or on [std::cerr] the kind and
    the message of the error it caught. *)
Inductive Output : Set :=
| Cout (line : string)
| Cerr (k : Kind.t) (message : string).

(** [main] has left with an exit code, or it is inside [Run]. *)
Inductive MainResult : Set :=
| Exit (code : Z)
| Serving.

(** [main].  The handler and the server are locals of the [try] block.  An
    exception out of the constructor reaches the [catch] with no server to
    destroy; an exception out of [Run] destroys the server on its way to the
    [catch].  Were [Run] to return, the block would end, the server would be
    destroyed, and [main] would return 0. *)
Definition main (kc : CtorEnv) (kr : RunEnv) (script : list wait_result) (w : World)
    : MainResult * list Output * World :=
  match Server_ctor PORT THREADS BUFFER_SIZE EVENTS kc w with
  | (Throw e, w) => (Exit EXIT_FAILURE, [Cerr (kind e) (what e)], w)
  | (Ok server, w) =>
      let out := [Cout "Starting server on port: 8080"] in
      match Run server kr script w with
      | (Thrown e, w) =>
          let w := Server_dtor server w in
          (Exit EXIT_FAILURE, out ++ [Cerr (kind e) (what e)], w)
      | (Returned, w) =>
          let w := Server_dtor server w in
          (Exit 0, out, w)
      | (Blocked, w) => (Serving, out, w)
      end
  end.

(** ** A concrete setting for the examples *)

(** A handler that counts the calls it receives, echoes what it reads and
    asks to keep the connection. *)
#[global] Instance probe_handler : Handler nat := {|
  OnNew n _ out := (S n, out, true);
  OnRead n _ in_bytes out := (S n, out ++ in_bytes, true);
  OnClose n _ := S n;
  OnError n _ _ := S n;
|}.

(** The server of [main]: port 8080, 4 threads, a 1024-byte buffer, 16
    events per wait; the kernel hands out descriptors 3 and 4. *)
Definition main_env : CtorEnv := mkCtorEnv 3 4 0 0.
Definition main_server : Server := mkServer 3 8080 1024 16 4 4.

(** The world once [main_server] is inside its loop. *)
Definition main_world : World :=
  (run_prologue main_server (mkRunEnv 0 0)
     (Server_ctor 8080 4 1024 16 main_env world0).2).2.

(** The same with one established connection on descriptor 5. *)
Definition conn_world : World :=
  mkWorld ({[5]} ∪ open_fds main_world) ({[5]} ∪ interest main_world) [] (trace main_world).

Definition peer5 : sockaddr_in := mkAddr 2 40000 2130706433.

Definition ten_bytes : list byte := [x30; x31; x32; x33; x34; x35; x36; x37; x38; x39].

(** ** Notions used in the statements *)

(** The loop ignores a notification when handling it leaves the world as it
    was: no system call, no task queued. *)
Definition ignored (srv : Server) (ev : epoll_event) (k : EventEnv) (w : World) : Prop :=
  process_event srv ev k w = w.

(** A hang-up-only notification: the hang-up bit without the readable bit. *)
Definition hangup_only (ev : epoll_event) : Prop :=
  Z.land (events ev) EPOLLHUP ≠ 0 ∧ Z.land (events ev) EPOLLIN = 0.

(** The system calls that the loop thread makes while it handles one
    notification. *)
Definition is_loop_syscall (a : Action) : bool :=
  match a with
  | SysAccept _ | SysEpollAdd _ _ | SysRead _ _ | SysGetpeername _ | SysClose _ => true
  | _ => false
  end.

Definition is_read_task (t : Task) : bool :=
  match t with TRead _ _ => true | _ => false end.

Definition is_onread (a : Action) : bool :=
  match a with CallOnRead _ _ => true | _ => false end.

(** The [OnRead] calls of a trace. *)
Definition onread_calls (l : list Action) : list Action :=
  filter (fun a => is_onread a = true) l.

Definition is_wait_ok (r : wait_result) : bool :=
  match r with WaitOk _ => true | WaitErr => false end.

Definition is_wait (a : Action) : bool :=
  match a with SysEpollWait _ => true | _ => false end.

(** How many times [epoll_wait] was called in a trace. *)
Definition wait_calls (l : list Action) : nat :=
  length (filter (fun a => is_wait a = true) l).

(** The error that [Run] throws when [epoll_wait] fails. *)
Definition wait_error : Error := mkError "Failed to wait for events." Kind.EpollWait.

(** At most one task in flight refers to any one handle. *)
Definition at_most_one_in_flight {H} (s : System H) : Prop :=
  ∀ h, (count_refs h (in_flight s) <= 1)%nat.

(** No two workers hold tasks for the same handle. *)
Definition one_worker_per_handle {H} (s : System H) : Prop :=
  ∀ h, (count_refs h (sys_running s) <= 1)%nat.

(** [main_server] inside its loop with the counting handler, nothing queued. *)
Definition main_system : System nat := mkSystem main_world 0%nat [].

(** A connection is accepted on descriptor 5; its first ten bytes arrive
    before any worker is free; then two workers take the two tasks. *)
Definition two_tasks_run : list Label :=
  [ LEvent (mkEvent EPOLLIN 4) (mkEventEnv 5 0 None (PeerOk peer5));
    LEvent (mkEvent EPOLLIN 5) (mkEventEnv (-1) 0 (Some ten_bytes) (PeerOk peer5));
    LTake; LTake ].

(** The system calls of the thread that executes [Run]. *)
Definition is_run_syscall (a : Action) : bool :=
  match a with
  | SysListen _ | SysEpollAdd _ _ | SysEpollWait _ | SysAccept _ | SysRead _ _
  | SysGetpeername _ | SysClose _ => true
  | _ => false
  end.

Definition is_write (a : Action) : bool :=
  match a with SysWrite _ _ => true | _ => false end.

(** The descriptor that handling a notification may open, close or
    register: the accepted one on the listening socket, the notification's
    own otherwise. *)
Definition touched_fd (srv : Server) (ev : epoll_event) (k : EventEnv) : Z :=
  if data_fd ev =? _server_fd srv then k_accept k else data_fd ev.

(** [accept] never answers with the descriptor [fd] in the answers of [r]. *)
Definition accepts_avoid (fd : Z) (r : wait_result) : Prop :=
  match r with
  | WaitErr => True
  | WaitOk evs => Forall (fun ek => k_accept ek.2 ≠ fd) evs
  end.




(* ===================================================================== *)
(** * Properties *)

(** ** Basic facts *)

Lemma Server_ctor_main :
  (Server_ctor 8080 4 1024 16 main_env world0).1 = Ok main_server.
Proof. reflexivity. Qed.

Lemma trace_app_neq (l l' : list Action) : l' ≠ [] -> l ++ l' ≠ l.
Proof.
  intros Hne Heq. apply Hne.
  apply (app_inv_head l). by rewrite app_nil_r.
Qed.

(** The loop thread's body, branch by branch. *)

Lemma process_event_hup srv ev k w :
  Z.land (events ev) EPOLLHUP ≠ 0 -> process_event srv ev k w = w.
Proof.
  intros Hh. unfold process_event.
  destruct (Z.eqb_spec (Z.land (events ev) EPOLLHUP) 0); [done | reflexivity].
Qed.

Lemma process_event_listen srv ev k w :
  Z.land (events ev) EPOLLHUP = 0 -> data_fd ev = _server_fd srv ->
  process_event srv ev k w =
    let w1 := log (SysAccept (_server_fd srv)) w in
    if k_accept k =? -1 then w1
    else
      let w2 := log (SysEpollAdd (_epoll_fd srv) (k_accept k))
                    (set_open (union {[k_accept k]}) w1) in
      if k_epoll_ctl k =? -1 then sys_close (k_accept k) w2
      else Push (TNew (k_accept k)) (set_interest (union {[k_accept k]}) w2).
Proof.
  intros Hh Hfd. unfold process_event. rewrite Hh, Hfd, !Z.eqb_refl. simpl.
  unfold sys_accept, sys_epoll_ctl_add.
  destruct (k_accept k =? -1); [reflexivity |].
  destruct (k_epoll_ctl k =? -1); reflexivity.
Qed.

Lemma process_event_conn srv ev k w :
  Z.land (events ev) EPOLLHUP = 0 -> data_fd ev ≠ _server_fd srv ->
  process_event srv ev k w =
    let client_fd := data_fd ev in
    let '(n, in_buf, w1) :=
      sys_read (k_read k) client_fd (replicate (_buf_size srv) x00) (_buf_size srv) w in
    if n =? -1 then
      let '(a, w2) := address_or_default (k_peer k) client_fd w1 in
      Push (TOnError a (mkError "Failed to read from a client." Kind.Read))
           (sys_close client_fd w2)
    else if n =? 0 then
      let '(a, w2) := address_or_default (k_peer k) client_fd w1 in
      Push (TOnClose a) (sys_close client_fd w2)
    else Push (TRead client_fd in_buf) w1.
Proof.
  intros Hh Hfd. unfold process_event. rewrite Hh. simpl.
  destruct (Z.eqb_spec (data_fd ev) (_server_fd srv)); [done |].
  rewrite length_replicate. reflexivity.
Qed.

(** Handling a notification adds only system calls of the loop thread to
    the trace. *)
Lemma process_event_trace srv ev k w :
  ∃ l, trace (process_event srv ev k w) = trace w ++ l
       ∧ Forall (fun a => is_loop_syscall a = true) l.
Proof.
  destruct (decide (Z.land (events ev) EPOLLHUP = 0)) as [Hh | Hh];
    [| exists []; by rewrite process_event_hup, app_nil_r].
  destruct (decide (data_fd ev = _server_fd srv)) as [Hfd | Hfd].
  - rewrite process_event_listen by done. simpl.
    destruct (k_accept k =? -1); [| destruct (k_epoll_ctl k =? -1)]; simpl;
      rewrite <- ?app_assoc; eexists; (split; [reflexivity | by repeat constructor]).
  - rewrite process_event_conn by done. simpl.
    unfold sys_read, address_or_default, GetClientAddress.
    destruct (_buf_size srv), (k_read k), (k_peer k); simpl;
      repeat match goal with |- context [if ?b then _ else _] => destruct b end;
      simpl; rewrite <- ?app_assoc; eexists;
      (split; [reflexivity | by repeat constructor]).
Qed.

(** So whatever is counted in a trace and is not such a system call is left
    as it was. *)
Lemma process_event_filter (P : Action -> bool) srv ev k w :
  (∀ a, is_loop_syscall a = true -> P a = false) ->
  filter (fun a => P a = true) (trace (process_event srv ev k w))
  = filter (fun a => P a = true) (trace w).
Proof.
  intros HP. destruct (process_event_trace srv ev k w) as (l & -> & Hl).
  rewrite filter_app. rewrite <- (app_nil_r (filter _ (trace w))) at 2. f_equal.
  induction Hl as [| a l Ha _ IH]; [done |].
  rewrite filter_cons, IH. destruct (decide (P a = true)) as [Hp | Hp]; [| done].
  rewrite (HP a Ha) in Hp. done.
Qed.

(** One notification queues at most one task. *)
Lemma process_event_queue srv ev k w :
  queue (process_event srv ev k w) = queue w
  ∨ ∃ t, queue (process_event srv ev k w) = queue w ++ [t].
Proof.
  destruct (decide (Z.land (events ev) EPOLLHUP = 0)) as [Hh | Hh];
    [| left; by rewrite process_event_hup].
  destruct (decide (data_fd ev = _server_fd srv)) as [Hfd | Hfd].
  - rewrite process_event_listen by done. simpl.
    destruct (k_accept k =? -1); [| destruct (k_epoll_ctl k =? -1)];
      simpl; eauto.
  - rewrite process_event_conn by done. simpl.
    unfold sys_read, address_or_default, GetClientAddress.
    destruct (_buf_size srv), (k_read k), (k_peer k); simpl;
      repeat match goal with |- context [if ?b then _ else _] => destruct b end;
      simpl; eauto.
Qed.

(** A notification whose hang-up bit is clear always leads to a system
    call: [accept] on the listening socket, [read] on a connection. *)
Lemma process_event_acts srv ev k w :
  Z.land (events ev) EPOLLHUP = 0 ->
  ∃ a rest, trace (process_event srv ev k w) = trace w ++ a :: rest
            ∧ (a = SysAccept (_server_fd srv) ∨ a = SysRead (data_fd ev) (_buf_size srv)).
Proof.
  intros Hh. destruct (decide (data_fd ev = _server_fd srv)) as [Hfd | Hfd].
  - rewrite process_event_listen by done. simpl.
    exists (SysAccept (_server_fd srv)).
    destruct (k_accept k =? -1); [| destruct (k_epoll_ctl k =? -1)];
      eexists; (split; [simpl; rewrite <- ?app_assoc; reflexivity | by left]).
  - rewrite process_event_conn by done. simpl.
    exists (SysRead (data_fd ev) (_buf_size srv)).
    unfold sys_read, address_or_default, GetClientAddress.
    destruct (_buf_size srv) eqn:Hb, (k_read k) as [d |], (k_peer k); simpl;
      repeat match goal with |- context [if ?b then _ else _] => destruct b end;
      eexists; (split; [simpl; rewrite <- ?app_assoc; reflexivity | by right]).
Qed.

(** ** Hang-up notifications *)

(** The guard of the loop tests the hang-up bit alone: a notification is
    skipped, leaving the world as it was (no accept, read, close or
    enqueue), exactly when that bit is set, whatever the other bits are. *)
Lemma ignored_iff_hangup_bit srv ev k w :
  ignored srv ev k w ↔ Z.land (events ev) EPOLLHUP ≠ 0.
Proof.
  unfold ignored. split.
  - intros Hsame Hh.
    destruct (process_event_acts srv ev k w Hh) as (a & rest & Htr & _).
    rewrite Hsame in Htr. symmetry in Htr.
    by apply trace_app_neq in Htr.
  - apply process_event_hup.
Qed.

(** So it is not the hang-up-only notifications that are skipped. *)
Lemma not_only_hangup_only_is_ignored :
  ¬ (∀ srv ev k w, ignored srv ev k w ↔ hangup_only ev).
Proof.
  intros Hclaim.
  pose (ev := mkEvent (Z.lor EPOLLIN EPOLLHUP) 5).
  pose (k := mkEventEnv (-1) 0 (Some ten_bytes) (PeerOk peer5)).
  destruct (Hclaim main_server ev k conn_world) as [Hto _].
  assert (Hign : ignored main_server ev k conn_world).
  { apply process_event_hup. by vm_compute. }
  destruct (Hto Hign) as [_ Hin]. by vm_compute in Hin.
Qed.

(** C8, at the failing input.  Connection 5 of [main_server] is open and
    registered, the process has never closed it, and ten bytes wait on it.
    Its notification carries the readable bit together with the hang-up
    bit.  The loop skips it: no read, nothing queued, the world is as it
    was.  The same notification without the hang-up bit is read and queues
    the Read task. *)
Theorem C8_readable_hangup_is_skipped :
  let ev := mkEvent (Z.lor EPOLLIN EPOLLHUP) 5 in
  let k := mkEventEnv (-1) 0 (Some ten_bytes) (PeerOk peer5) in
  5 ∈ open_fds conn_world ∧ 5 ∈ interest conn_world
  ∧ Forall (fun a => a ≠ SysClose 5) (trace conn_world)
  ∧ Z.land (events ev) EPOLLIN ≠ 0
  ∧ ¬ hangup_only ev
  ∧ process_event main_server ev k conn_world = conn_world
  ∧ queue (process_event main_server (mkEvent EPOLLIN 5) k conn_world)
    = [TRead 5 (ten_bytes ++ replicate 1014 x00)].
Proof.
  intros ev k.
  split; [apply (bool_decide_unpack _); by vm_compute |].
  split; [apply (bool_decide_unpack _); by vm_compute |].
  split; [by repeat constructor |].
  split; [by vm_compute |].
  split; [intros [_ Hin]; by vm_compute in Hin |].
  split; [apply process_event_hup; by vm_compute | by vm_compute].
Qed.

(** ** What a Read task carries *)

(** On a connection whose read returns [n > 0], the task that is queued
    holds the whole receive buffer: [_buf_size] bytes, of which the first
    [n] are the ones read. *)
Lemma read_task_buffer srv ev k w n in_buf w1 :
  Z.land (events ev) EPOLLHUP = 0 -> data_fd ev ≠ _server_fd srv ->
  sys_read (k_read k) (data_fd ev) (replicate (_buf_size srv) x00) (_buf_size srv) w
    = (n, in_buf, w1) ->
  0 < n ->
  queue (process_event srv ev k w) = queue w ++ [TRead (data_fd ev) in_buf]
  ∧ length in_buf = _buf_size srv
  ∧ ∃ d, k_read k = Some d ∧ Z.to_nat n = length (take (_buf_size srv) d)
         ∧ take (Z.to_nat n) in_buf = take (_buf_size srv) d.
Proof.
  intros Hh Hfd Hrd Hn. rewrite process_event_conn by done. simpl. rewrite Hrd.
  destruct (Z.eqb_spec n (-1)); [lia |]. destruct (Z.eqb_spec n 0); [lia |].
  unfold sys_read in Hrd. destruct (_buf_size srv) as [| b] eqn:Hb.
  { injection Hrd as <- _ _. lia. }
  destruct (k_read k) as [d |]; [| injection Hrd as <- _ _; lia].
  injection Hrd as <- <- <-. rewrite Nat2Z.id.
  change (x00 :: replicate b x00) with (replicate (S b) x00).
  split; [reflexivity |]. split.
  - rewrite length_app, length_drop, length_replicate, length_take. lia.
  - exists d. split; [reflexivity |]. split; [reflexivity |].
    apply take_app_length.
Qed.

(** X2.  For a read that returns [n > 0] bytes the loop queues one Read task
    for that handle; the first [n] bytes it carries are the bytes read in this
    notification, whatever earlier notifications delivered; the loop leaves
    the handle open and registered. *)
Theorem read_task_prefix srv ev k w d :
  Z.land (events ev) EPOLLHUP = 0 -> data_fd ev ≠ _server_fd srv ->
  k_read k = Some d -> (0 < length (take (_buf_size srv) d))%nat ->
  let got := take (_buf_size srv) d in
  let w' := process_event srv ev k w in
  (sys_read (k_read k) (data_fd ev) (replicate (_buf_size srv) x00) (_buf_size srv) w).1.1
    = Z.of_nat (length got)
  ∧ ∃ in_buf,
      queue w' = queue w ++ [TRead (data_fd ev) in_buf]
      ∧ take (length got) in_buf = got
      ∧ open_fds w' = open_fds w ∧ interest w' = interest w.
Proof.
  intros Hh Hfd Hk Hlen got w'. subst w' got.
  destruct (sys_read (k_read k) (data_fd ev) (replicate (_buf_size srv) x00)
              (_buf_size srv) w) as [[n in_buf] w1] eqn:Hrd.
  assert (Hn : n = Z.of_nat (length (take (_buf_size srv) d))
               ∧ w1 = log (SysRead (data_fd ev) (_buf_size srv)) w).
  { unfold sys_read in Hrd. rewrite Hk in Hrd.
    destruct (_buf_size srv); [simpl in Hlen; lia |]. by injection Hrd as <- _ <-. }
  destruct Hn as [-> ->].
  destruct (read_task_buffer srv ev k w _ in_buf _ Hh Hfd Hrd ltac:(lia))
    as (Hq & _ & d' & Hd' & _ & Htake).
  split; [done |]. exists in_buf. split; [done |].
  rewrite Hk in Hd'. injection Hd' as <-. rewrite Nat2Z.id in Htake.
  split; [done |].
  rewrite process_event_conn by done. simpl. rewrite Hrd.
  destruct (Z.eqb_spec (Z.of_nat (length (take (_buf_size srv) d))) (-1)); [lia |].
  destruct (Z.eqb_spec (Z.of_nat (length (take (_buf_size srv) d))) 0); [lia |]. done.
Qed.

(** For instance the ten bytes read on connection 5 of [main_server]. *)
Lemma read_task_prefix_witness :
  let k := mkEventEnv (-1) 0 (Some ten_bytes) (PeerOk peer5) in
  ∃ in_buf,
    queue (process_event main_server (mkEvent EPOLLIN 5) k conn_world)
      = [TRead 5 in_buf]
    ∧ take 10 in_buf = ten_bytes.
Proof.
  intros k.
  destruct (read_task_prefix main_server (mkEvent EPOLLIN 5) k conn_world ten_bytes
              eq_refl ltac:(discriminate) eq_refl ltac:(vm_compute; lia))
    as (_ & in_buf & Hq & Htake & _).
  exists in_buf. split; [exact Hq | exact Htake].
Defined.

(** C1, at the failing input.  [main_server] has a 1024-byte buffer; the
    read on connection 5 returns 10 bytes.  The queued Read task carries
    1024 bytes, the ten read and 1014 zero bytes after them, and [OnRead]
    is called with all 1024. *)
Theorem C1_read_task_carries_whole_buffer :
  let k := mkEventEnv (-1) 0 (Some ten_bytes) (PeerOk peer5) in
  let w := process_event main_server (mkEvent EPOLLIN 5) k conn_world in
  (sys_read (Some ten_bytes) 5 (replicate 1024 x00) 1024 conn_world).1.1 = 10
  ∧ ∃ in_buf,
      queue w = [TRead 5 in_buf]
      ∧ length in_buf = 1024%nat
      ∧ in_buf = ten_bytes ++ replicate 1014 x00
      ∧ trace (run_task (TRead 5 in_buf) (mkWorkerEnv (PeerOk peer5) None) 0%nat w).2
        = trace w ++ [SysGetpeername 5; CallOnRead peer5 in_buf; SysWrite 5 in_buf].
Proof.
  split; [reflexivity |].
  exists (ten_bytes ++ replicate 1014 x00).
  repeat split; by vm_compute.
Qed.

(** ** Construction and destruction *)

(** X1.  A failed construction throws an [Error] of one of three kinds. *)
Theorem Server_ctor_throw_kind port threads buf_size max_events k w e w' :
  Server_ctor port threads buf_size max_events k w = (Throw e, w') ->
  kind e = Kind.EpollCreation ∨ kind e = Kind.SocketCreation
  ∨ kind e = Kind.SocketBinding.
Proof.
  unfold Server_ctor, bind, lift, throw, ret, sys_epoll_create1, sys_socket,
    sys_setsockopt, sys_bind. simpl.
  repeat match goal with |- context [if ?b then _ else _] => destruct b end;
    intros [= <- _]; simpl; auto.
Qed.

(** For instance [Server(8080, 4, 1024, 0)]: no events to wait for. *)
Lemma Server_ctor_throw_kind_witness :
  (Server_ctor 8080 4 1024 0 main_env world0).1
    = Throw (mkError "Invalid max events." Kind.EpollCreation)
  ∧ (Kind.EpollCreation = Kind.EpollCreation
     ∨ Kind.EpollCreation = Kind.SocketCreation
     ∨ Kind.EpollCreation = Kind.SocketBinding).
Proof.
  split; [reflexivity |].
  exact (Server_ctor_throw_kind 8080 4 1024 0 main_env world0 _ _ eq_refl).
Defined.

(** A constructor that throws closes nothing: the descriptors it was given
    are open when the exception leaves it. *)
Lemma Server_ctor_throw_keeps_open port threads buf_size max_events k w e w' :
  Server_ctor port threads buf_size max_events k w = (Throw e, w') ->
  (k_epoll_create1 k ≠ -1 -> k_epoll_create1 k ∈ open_fds w')
  ∧ (k_socket k ≠ -1 -> k_socket k ∈ open_fds w')
  ∧ (∀ fd, fd ∈ open_fds w -> fd ∈ open_fds w').
Proof.
  unfold Server_ctor, bind, lift, throw, ret, sys_epoll_create1, sys_socket,
    sys_setsockopt, sys_bind. simpl.
  destruct (Z.eqb_spec (k_epoll_create1 k) (-1)), (Z.eqb_spec (k_socket k) (-1));
    repeat match goal with |- context [if ?b then _ else _] => destruct b end;
    intros [= _ <-]; simpl; (split; [| split]); intros; try done;
    rewrite ?elem_of_union, ?elem_of_singleton; auto.
Qed.

(** The destructor of a constructed server gives both descriptors back. *)
Lemma Server_dtor_releases :
  open_fds (Server_dtor main_server (Server_ctor 8080 4 1024 16 main_env world0).2) = ∅.
Proof. by vm_compute. Qed.

(** C5, at the failing input.  The epoll instance (3) and the socket (4) are
    created, then [bind] fails: the constructor throws [SocketBinding] and
    both descriptors stay open; nothing closes them. *)
Theorem C5_failed_bind_leaks_descriptors :
  let '(r, w) := Server_ctor 8080 4 1024 16 (mkCtorEnv 3 4 0 (-1)) world0 in
  r = Throw (mkError "Failed to bind server socket." Kind.SocketBinding)
  ∧ open_fds w = {[3; 4]}
  ∧ trace w = [SysEpollCreate 3; SysSocket 4; SysSetsockopt 4; SysBind 4 8080].
Proof. repeat split; by vm_compute. Qed.

(** ** Tasks always reach the handler *)

(** The calls to the handler in a trace. *)
Lemma calls_app (l l' : list Action) :
  filter (fun a => is_call a = true) (l ++ l')
  = filter (fun a => is_call a = true) l ++ filter (fun a => is_call a = true) l'.
Proof. apply filter_app. Qed.

(** Whatever the kernel answers, running a task calls the handler at least
    once. *)
Lemma run_task_calls `{Handler H} t k (handler : H) w :
  ∃ c rest,
    filter (fun a => is_call a = true) (trace (run_task t k handler w).2)
    = filter (fun a => is_call a = true) (trace w) ++ c :: rest.
Proof.
  destruct t as [fd | fd buf | a e | a]; simpl;
    unfold HandleConnUpdate, GetClientAddress, Write, call_OnError, call_OnClose;
    simpl.
  1, 2: destruct (k_wpeer k) as [a | e]; simpl;
    [ destruct (OnNew _ _ _) as [[h1 out] ka] || destruct (OnRead _ _ _ _) as [[h1 out] ka];
      destruct (k_write k) as [msg |]; simpl; [| destruct ka; simpl] |];
    rewrite <- ?app_assoc, calls_app; simpl; eauto.
  all: rewrite calls_app; simpl; eauto.
Qed.

(** ** Notifications on an established connection *)

(** [read] gives -1, or a count between 0 and [count]. *)
Lemma sys_read_range pending fd buf count w :
  let n := (sys_read pending fd buf count w).1.1 in
  n = -1 ∨ 0 <= n <= Z.of_nat count.
Proof.
  unfold sys_read. destruct count as [| c]; simpl; [lia |].
  destruct pending as [d |]; simpl; [right | by left].
  destruct d as [| x d]; simpl; [lia |]. rewrite length_take. lia.
Qed.

(** C4.  On a notification for an established connection the result [n] of
    the one [read] picks the outcome.  [n < 0]: the handle is closed and one
    closure calling [OnError] with the Read error is queued.  [n = 0]: the
    handle is closed and one closure calling [OnClose] is queued.  In both
    the address is the resolved one, or the all-zero default when resolution
    fails.  [n > 0]: the handle stays open and one Read task is queued. *)
Theorem C4_read_result_picks_outcome srv ev k w :
  Z.land (events ev) EPOLLHUP = 0 -> data_fd ev ≠ _server_fd srv ->
  let fd := data_fd ev in
  let n := (sys_read (k_read k) fd (replicate (_buf_size srv) x00) (_buf_size srv) w).1.1 in
  let a := match k_peer k with PeerOk a => a | PeerErr _ => sockaddr_zero end in
  let read_error := mkError "Failed to read from a client." Kind.Read in
  let w' := process_event srv ev k w in
  (if n <? 0 then
     queue w' = queue w ++ [TOnError a read_error]
     ∧ open_fds w' = open_fds w ∖ {[fd]} ∧ interest w' = interest w ∖ {[fd]}
     ∧ trace w' = trace w ++ [SysRead fd (_buf_size srv); SysGetpeername fd; SysClose fd]
   else if n =? 0 then
     queue w' = queue w ++ [TOnClose a]
     ∧ open_fds w' = open_fds w ∖ {[fd]} ∧ interest w' = interest w ∖ {[fd]}
     ∧ trace w' = trace w ++ [SysRead fd (_buf_size srv); SysGetpeername fd; SysClose fd]
   else
     (∃ in_buf, queue w' = queue w ++ [TRead fd in_buf])
     ∧ open_fds w' = open_fds w ∧ interest w' = interest w
     ∧ trace w' = trace w ++ [SysRead fd (_buf_size srv)])
  ∧ (∀ (H : Type) (HH : Handler H) (handler : H) kw v,
       trace (run_task (TOnError a read_error) kw handler v).2
         = trace v ++ [CallOnError a read_error]
       ∧ trace (run_task (TOnClose a) kw handler v).2 = trace v ++ [CallOnClose a]).
Proof.
  intros Hh Hfd fd n a read_error w'. split; [| by intros].
  subst w' n. rewrite process_event_conn by done. simpl.
  unfold sys_read, address_or_default, GetClientAddress. fold fd.
  destruct (_buf_size srv) as [| b]; simpl.
  { subst a. destruct (k_peer k); simpl; rewrite <- ?app_assoc; done. }
  destruct (k_read k) as [d |]; simpl.
  - destruct d as [| x d]; simpl.
    + subst a. destruct (k_peer k); simpl; rewrite <- ?app_assoc; done.
    + eauto 6.
  - subst a. destruct (k_peer k); simpl; rewrite <- ?app_assoc; done.
Qed.

(** C4 at work: the read on connection 5 fails and so does the address
    lookup; the connection is closed and [OnError] is queued with the
    default address. *)
Lemma C4_read_error_witness :
  let k := mkEventEnv (-1) 0 None (PeerErr (mkError "getpeername" Kind.Read)) in
  let w' := process_event main_server (mkEvent EPOLLIN 5) k conn_world in
  queue w' = [TOnError sockaddr_zero (mkError "Failed to read from a client." Kind.Read)]
  ∧ open_fds w' = open_fds conn_world ∖ {[5]}.
Proof.
  intros k w'.
  pose proof (C4_read_result_picks_outcome main_server (mkEvent EPOLLIN 5) k conn_world
                eq_refl ltac:(discriminate)) as [Hout _].
  simpl in Hout. destruct Hout as (Hq & Ho & _). split; [exact Hq | exact Ho].
Defined.

(** ** Notifications on the listening socket *)

(** The loop thread never calls the handler itself. *)
Lemma process_event_no_call srv ev k w :
  filter (fun a => is_call a = true) (trace (process_event srv ev k w))
  = filter (fun a => is_call a = true) (trace w).
Proof. apply process_event_filter. by intros []. Qed.

(** C6.  On a notification for the listening socket: when [accept] fails
    nothing changes and nothing is queued; when [accept] succeeds and the
    registration fails the new handle is closed and nothing is queued; when
    both succeed exactly one New task is queued.  Among all notifications
    that are not ignored these two failures are the only ones that queue
    nothing; every other one queues exactly one task, and a task, once run,
    calls the handler.  The loop thread itself never calls the handler. *)
Theorem C6_listening_socket_outcomes srv ev k w :
  Z.land (events ev) EPOLLHUP = 0 ->
  let c := k_accept k in
  let w' := process_event srv ev k w in
  (data_fd ev = _server_fd srv ->
     (if c =? -1 then
        open_fds w' = open_fds w ∧ interest w' = interest w ∧ queue w' = queue w
        ∧ trace w' = trace w ++ [SysAccept (_server_fd srv)]
      else if k_epoll_ctl k =? -1 then
        (c ∉ open_fds w') ∧ (c ∉ interest w')
        ∧ open_fds w' = open_fds w ∖ {[c]} ∧ queue w' = queue w
        ∧ trace w' = trace w ++ [SysAccept (_server_fd srv);
                                 SysEpollAdd (_epoll_fd srv) c; SysClose c]
      else
        queue w' = queue w ++ [TNew c] ∧ c ∈ open_fds w' ∧ c ∈ interest w'
        ∧ trace w' = trace w ++ [SysAccept (_server_fd srv);
                                 SysEpollAdd (_epoll_fd srv) c]))
  ∧ (queue w' = queue w
     ↔ data_fd ev = _server_fd srv ∧ (c = -1 ∨ k_epoll_ctl k = -1))
  ∧ (queue w' = queue w ∨ (∃ t, queue w' = queue w ++ [t]))
  ∧ filter (fun a => is_call a = true) (trace w')
    = filter (fun a => is_call a = true) (trace w)
  ∧ (∀ (H : Type) (HH : Handler H) (handler : H) t kw v, ∃ call rest,
       filter (fun a => is_call a = true) (trace (run_task t kw handler v).2)
       = filter (fun a => is_call a = true) (trace v) ++ call :: rest).
Proof.
  intros Hh c w'.
  assert (Hne : ∀ (q : list Task) t, q ++ [t] ≠ q).
  { intros q t Heq. apply (f_equal length) in Heq.
    rewrite length_app in Heq. simpl in Heq. lia. }
  split; [| split; [| split; [| split]]].
  - intros Hfd. subst w' c. rewrite process_event_listen by done. simpl.
    destruct (Z.eqb_spec (k_accept k) (-1)) as [Hc | Hc]; [done |].
    destruct (Z.eqb_spec (k_epoll_ctl k) (-1)) as [Hr | Hr]; simpl.
    + rewrite <- !app_assoc. simpl.
      split; [apply not_elem_of_difference; right; by apply elem_of_singleton |].
      split; [apply not_elem_of_difference; right; by apply elem_of_singleton |].
      split; [| done].
      apply set_eq. intros x.
      rewrite !elem_of_difference, elem_of_union, elem_of_singleton. tauto.
    + rewrite <- !app_assoc. simpl.
      split; [done |].
      split; [apply elem_of_union; left; by apply elem_of_singleton |].
      split; [apply elem_of_union; left; by apply elem_of_singleton | done].
  - subst w' c. destruct (decide (data_fd ev = _server_fd srv)) as [Hfd | Hfd].
    + rewrite process_event_listen by done. simpl.
      destruct (Z.eqb_spec (k_accept k) (-1)) as [Hc | Hc];
        [split; [intros _; split; [done | by left] | done] |].
      destruct (Z.eqb_spec (k_epoll_ctl k) (-1)) as [Hr | Hr]; simpl;
        [split; [intros _; split; [done | by right] | done] |].
      split; [intros Hq; by apply Hne in Hq | intros [_ [? | ?]]; done].
    + rewrite process_event_conn by done. simpl.
      unfold sys_read, address_or_default, GetClientAddress.
      split; [| intros [? _]; done]. intros Hq. exfalso. revert Hq.
      destruct (_buf_size srv), (k_read k), (k_peer k); simpl;
        repeat match goal with |- context [if ?b then _ else _] => destruct b end;
        simpl; apply Hne.
  - apply process_event_queue.
  - apply process_event_no_call.
  - intros. apply run_task_calls.
Qed.

(** C6 at work on the listening socket (descriptor 4) of [main_server]:
    a failed accept, a failed registration of the accepted descriptor 5,
    and a successful accept. *)
Lemma C6_listening_socket_witness :
  let ev := mkEvent EPOLLIN 4 in
  let accept_fails := mkEventEnv (-1) 0 None (PeerOk peer5) in
  let add_fails := mkEventEnv 5 (-1) None (PeerOk peer5) in
  let both_succeed := mkEventEnv 5 0 None (PeerOk peer5) in
  queue (process_event main_server ev accept_fails main_world) = queue main_world
  ∧ queue (process_event main_server ev add_fails main_world) = queue main_world
  ∧ (5 ∉ open_fds (process_event main_server ev add_fails main_world))
  ∧ queue (process_event main_server ev both_succeed main_world)
    = queue main_world ++ [TNew 5].
Proof.
  intros ev accept_fails add_fails both_succeed.
  pose proof (C6_listening_socket_outcomes main_server ev accept_fails main_world eq_refl)
    as [H1 _].
  pose proof (C6_listening_socket_outcomes main_server ev add_fails main_world eq_refl)
    as [H2 _].
  pose proof (C6_listening_socket_outcomes main_server ev both_succeed main_world eq_refl)
    as [H3 _].
  specialize (H1 eq_refl). specialize (H2 eq_refl). specialize (H3 eq_refl).
  cbn [k_accept k_epoll_ctl accept_fails add_fails both_succeed Z.eqb Pos.eqb] in H1, H2, H3.
  destruct H1 as (_ & _ & H1 & _). destruct H2 as (H2o & _ & _ & H2 & _).
  destruct H3 as (H3 & _).
  repeat split; assumption.
Defined.

(** ** The worker side, case by case *)

Ltac handle_conn_cases k :=
  unfold HandleConnUpdate, GetClientAddress, Write, call_OnError, call_OnClose;
  simpl;
  destruct (k_wpeer k); simpl;
  [ first [ destruct (OnNew _ _ _) as [[? ?] []]
          | destruct (OnRead _ _ _ _) as [[? ?] []] ];
    destruct (k_write k); simpl
  | ].

(** Running a task leaves the queue alone. *)
Lemma run_task_queue `{Handler H} t k (handler : H) w :
  queue (run_task t k handler w).2 = queue w.
Proof.
  destruct t; simpl; [handle_conn_cases k .. | |]; reflexivity.
Qed.

(** Only a Read task calls [OnRead]. *)
Lemma run_task_no_onread `{Handler H} t k (handler : H) w :
  is_read_task t = false ->
  onread_calls (trace (run_task t k handler w).2) = onread_calls (trace w).
Proof.
  unfold onread_calls.
  destruct t; simpl; [| done | |]; intros _; [handle_conn_cases k | |];
    rewrite <- ?app_assoc, filter_app; simpl; by rewrite app_nil_r.
Qed.

Lemma process_event_no_onread srv ev k w :
  onread_calls (trace (process_event srv ev k w)) = onread_calls (trace w).
Proof. apply process_event_filter. by intros []. Qed.

(** ** A receive buffer of size zero *)

Lemma zero_buffer_event srv ev k w :
  _buf_size srv = 0%nat ->
  Z.land (events ev) EPOLLHUP = 0 -> data_fd ev ≠ _server_fd srv ->
  process_event srv ev k w =
    let fd := data_fd ev in
    let a := match k_peer k with PeerOk a => a | PeerErr _ => sockaddr_zero end in
    Push (TOnClose a)
      (sys_close fd (log (SysGetpeername fd) (log (SysRead fd 0) w))).
Proof.
  intros Hb Hh Hfd. rewrite process_event_conn by done. rewrite Hb. simpl.
  unfold address_or_default, GetClientAddress.
  destruct (k_peer k); reflexivity.
Qed.

Lemma zero_buffer_no_read_task srv ev k w :
  _buf_size srv = 0%nat ->
  Forall (fun t => is_read_task t = false) (queue w) ->
  Forall (fun t => is_read_task t = false) (queue (process_event srv ev k w)).
Proof.
  intros Hb Hq.
  destruct (decide (Z.land (events ev) EPOLLHUP = 0)) as [Hh | Hh];
    [| by rewrite process_event_hup].
  destruct (decide (data_fd ev = _server_fd srv)) as [Hfd | Hfd].
  - rewrite process_event_listen by done. simpl.
    destruct (k_accept k =? -1); [| destruct (k_epoll_ctl k =? -1)]; simpl;
      try done.
    apply Forall_app. split; [done | by repeat constructor].
  - rewrite zero_buffer_event by done. simpl.
    apply Forall_app. split; [done | by repeat constructor].
Qed.

Lemma zero_buffer_step `{Handler H} srv l (s s' : System H) :
  _buf_size srv = 0%nat ->
  sys_step srv l s = Some s' ->
  Forall (fun t => is_read_task t = false) (in_flight s) ->
  Forall (fun t => is_read_task t = false) (in_flight s')
  ∧ onread_calls (trace (sys_world s')) = onread_calls (trace (sys_world s)).
Proof.
  intros Hb Hstep Hinv. unfold in_flight in *.
  apply Forall_app in Hinv as [Hq Hr].
  destruct l as [ev k | | i k]; simpl in Hstep.
  - destruct (event_possible ev k (sys_world s)); [| done].
    injection Hstep as <-. simpl. split.
    + apply Forall_app. split; [by apply zero_buffer_no_read_task | done].
    + apply process_event_no_onread.
  - destruct (queue (sys_world s)) as [| t q] eqn:Hqueue; [done |].
    case_bool_decide; [| done].
    injection Hstep as <-. simpl. split; [| done].
    apply Forall_cons in Hq as [Ht Hq].
    apply Forall_app. split; [done |].
    apply Forall_app. split; [done | by constructor].
  - destruct (sys_running s !! i) as [t |] eqn:Hi; [| done].
    destruct (run_task t k (sys_handler s) (sys_world s)) as [h w] eqn:Hrun.
    injection Hstep as <-. simpl.
    assert (Ht : is_read_task t = false).
    { by apply (Forall_lookup_1 _ _ _ _ Hr Hi). }
    pose proof (run_task_queue t k (sys_handler s) (sys_world s)) as Hqu.
    pose proof (run_task_no_onread t k (sys_handler s) (sys_world s) Ht) as Hon.
    rewrite Hrun in Hqu, Hon. simpl in Hqu, Hon. split; [| done].
    apply Forall_app. split; [by rewrite Hqu | by apply Forall_delete].
Qed.

Lemma zero_buffer_steps `{Handler H} srv ls (s s' : System H) :
  _buf_size srv = 0%nat ->
  sys_steps srv ls s = Some s' ->
  Forall (fun t => is_read_task t = false) (in_flight s) ->
  Forall (fun t => is_read_task t = false) (in_flight s')
  ∧ onread_calls (trace (sys_world s')) = onread_calls (trace (sys_world s)).
Proof.
  intros Hb. revert s. induction ls as [| l ls IH]; intros s Hsteps Hinv; simpl in Hsteps.
  - by injection Hsteps as <-.
  - destruct (sys_step srv l s) as [s1 |] eqn:Hstep; [| done].
    destruct (zero_buffer_step srv l s s1 Hb Hstep Hinv) as [Hinv1 Htr1].
    destruct (IH s1 Hsteps Hinv1) as [Hinv' Htr']. split; [done | congruence].
Qed.

(** C10.  With a receive buffer of size 0 the read on an established
    connection returns 0 whatever the peer has sent, the notification is
    handled as an orderly shutdown (handle closed, [OnClose] queued), and
    in no run of the loop and the workers is [OnRead] ever called. *)
Theorem C10_zero_buffer_reads_as_shutdown srv :
  _buf_size srv = 0%nat ->
  (∀ ev k w,
     Z.land (events ev) EPOLLHUP = 0 -> data_fd ev ≠ _server_fd srv ->
     let fd := data_fd ev in
     let a := match k_peer k with PeerOk a => a | PeerErr _ => sockaddr_zero end in
     let w' := process_event srv ev k w in
     (sys_read (k_read k) fd (replicate (_buf_size srv) x00) (_buf_size srv) w).1.1 = 0
     ∧ queue w' = queue w ++ [TOnClose a]
     ∧ open_fds w' = open_fds w ∖ {[fd]} ∧ interest w' = interest w ∖ {[fd]})
  ∧ (∀ (H : Type) (HH : Handler H) (s0 s : System H) ls,
       entered srv s0 -> sys_steps srv ls s0 = Some s ->
       Forall (fun t => is_read_task t = false) (in_flight s)
       ∧ onread_calls (trace (sys_world s)) = onread_calls (trace (sys_world s0))).
Proof.
  intros Hb. split.
  - intros ev k w Hh Hfd fd a w'. subst w'.
    rewrite zero_buffer_event by done. rewrite Hb. by simpl.
  - intros H HH s0 s ls (Hq & Hr & _) Hsteps.
    apply (zero_buffer_steps srv ls s0 s Hb Hsteps).
    unfold in_flight. rewrite Hq, Hr. constructor.
Qed.

(** C10 at work: [main_server] with a zero-sized buffer; ten bytes wait on
    connection 5, and the notification ends in [OnClose]. *)
Lemma C10_zero_buffer_witness :
  let srv := mkServer 3 8080 0 16 4 4 in
  let k := mkEventEnv (-1) 0 (Some ten_bytes) (PeerOk peer5) in
  queue (process_event srv (mkEvent EPOLLIN 5) k conn_world) = [TOnClose peer5].
Proof.
  intros srv k.
  pose proof (C10_zero_buffer_reads_as_shutdown srv eq_refl) as [Hev _].
  destruct (Hev (mkEvent EPOLLIN 5) k conn_world eq_refl ltac:(discriminate))
    as (_ & Hq & _).
  exact Hq.
Defined.

(** ** Executing a New or Read task *)

(** C3.  [HandleConnUpdate], outcome by outcome.  Address resolution fails:
    the handle is closed and [OnError] is the only handler call.  Otherwise
    [OnNew] or [OnRead] is called and its output is written; a failed write
    closes the handle and calls [OnError] with an error of kind [Write]; a
    successful write closes the handle when [keep_alive] is false and leaves
    it open and registered when it is true. *)
Theorem C3_HandleConnUpdate_outcomes `{Handler H} UK (handler : H) fd in_buf k w :
  let w' := (HandleConnUpdate UK handler fd in_buf k w).2 in
  let closed :=
    open_fds w' = open_fds w ∖ {[fd]} ∧ interest w' = interest w ∖ {[fd]} in
  queue w' = queue w
  ∧ match k_wpeer k with
    | PeerErr e =>
        closed
        ∧ trace w' = trace w ++ [SysGetpeername fd; SysClose fd;
                                 CallOnError sockaddr_zero e]
    | PeerOk a =>
        let '(_, out_buf, keep_alive) :=
          match UK with
          | New => OnNew handler a []
          | Read => OnRead handler a in_buf []
          end in
        let call :=
          match UK with New => CallOnNew a | Read => CallOnRead a in_buf end in
        match k_write k with
        | Some msg =>
            closed
            ∧ trace w' = trace w ++ [SysGetpeername fd; call; SysWrite fd out_buf;
                                     SysClose fd;
                                     CallOnError a (mkError msg Kind.Write)]
        | None =>
            if keep_alive then
              open_fds w' = open_fds w ∧ interest w' = interest w
              ∧ trace w' = trace w ++ [SysGetpeername fd; call; SysWrite fd out_buf]
            else
              closed
              ∧ trace w' = trace w ++ [SysGetpeername fd; call; SysWrite fd out_buf;
                                       SysClose fd]
        end
    end.
Proof.
  unfold HandleConnUpdate, GetClientAddress, Write, call_OnError. simpl.
  destruct (k_wpeer k) as [a | e]; simpl.
  - destruct UK;
      [destruct (OnNew handler a []) as [[h out] ka]
      | destruct (OnRead handler a in_buf []) as [[h out] ka]];
      destruct (k_write k) as [msg |], ka; simpl;
      rewrite <- ?app_assoc; simpl; done.
  - rewrite <- ?app_assoc. simpl. done.
Qed.

(** ** The handler object *)

(** C9.  Running a New or a Read task gives back the handler object of
    [Run] as it was: [HandleConnUpdate] works on its by-value parameter, and
    what the callbacks did to that copy is dropped with it.  In the
    interleaving, a worker that finishes such a task leaves the handler
    that later tasks see unchanged. *)
Theorem C9_handler_not_mutated `{Handler H} (handler : H) k w :
  (∀ fd, (run_task (TNew fd) k handler w).1 = handler)
  ∧ (∀ fd in_buf, (run_task (TRead fd in_buf) k handler w).1 = handler)
  ∧ (∀ srv (s s' : System H) i t,
       sys_running s !! i = Some t -> is_Some (task_fd t) ->
       sys_step srv (LFinish i k) s = Some s' -> sys_handler s' = sys_handler s).
Proof.
  split; [| split].
  - intros fd. simpl. by destruct (HandleConnUpdate New handler fd [] k w).
  - intros fd in_buf. simpl. by destruct (HandleConnUpdate Read handler fd in_buf k w).
  - intros srv s s' i t Hi [fd Hfd] Hstep. simpl in Hstep. rewrite Hi in Hstep.
    destruct t as [c | c buf | a e | a]; simpl in Hfd; try done; simpl in Hstep.
    + destruct (HandleConnUpdate New _ c [] k _). by injection Hstep as <-.
    + destruct (HandleConnUpdate Read _ c buf k _). by injection Hstep as <-.
Qed.

(** C9 at work, and the contrast: with the counting handler the copy that
    [HandleConnUpdate] works on ends at 1, the handler of [Run] stays at 0
    after a New and after a Read task, and the closure that calls [OnClose]
    directly does change it. *)
Lemma C9_counting_handler_witness :
  let k := mkWorkerEnv (PeerOk peer5) None in
  (HandleConnUpdate New 0%nat 5 [] k conn_world).1 = 1%nat
  ∧ (run_task (TNew 5) k 0%nat conn_world).1 = 0%nat
  ∧ (run_task (TRead 5 ten_bytes) k 0%nat conn_world).1 = 0%nat
  ∧ (run_task (TOnClose peer5) k 0%nat conn_world).1 = 1%nat.
Proof.
  intros k.
  destruct (C9_handler_not_mutated 0%nat k conn_world) as (Hnew & Hread & _).
  split; [reflexivity |]. split; [exact (Hnew 5) |].
  split; [exact (Hread 5 ten_bytes) | reflexivity].
Defined.

(** ** [Run] as a whole *)

Lemma process_event_no_wait srv ev k w :
  wait_calls (trace (process_event srv ev k w)) = wait_calls (trace w).
Proof.
  unfold wait_calls. f_equal. apply process_event_filter. by intros [].
Qed.

Lemma process_events_no_wait srv n evs w :
  wait_calls (trace (process_events srv n evs w)) = wait_calls (trace w).
Proof.
  unfold process_events. generalize (take (Z.to_nat n) evs) as l.
  intros l. revert w. induction l as [| [ev k] l IH]; intros w; simpl; [done |].
  rewrite IH. apply process_event_no_wait.
Qed.

(** The iteration of [Run]'s loop ends by starting the next one or by
    throwing [wait_error]; it has no [break] and no [return]. *)
Lemma loop_body_cases srv r w :
  match r with
  | WaitErr =>
      loop_body srv r w = (Throw wait_error, log (SysEpollWait (_epoll_fd srv)) w)
  | WaitOk _ =>
      ∃ w', loop_body srv r w = (Ok Next, w')
            ∧ wait_calls (trace w') = S (wait_calls (trace w))
  end.
Proof.
  unfold loop_body, sys_epoll_wait. destruct r as [| evs]; simpl; [done |].
  destruct (Z.eqb_spec (Z.of_nat (length (take (Z.to_nat (_max_events srv)) evs))) (-1));
    [lia |].
  eexists. split; [reflexivity |].
  rewrite process_events_no_wait. unfold wait_calls. simpl.
  rewrite filter_app, length_app. simpl. lia.
Qed.

(** A loop whose body never breaks never returns. *)
Lemma while_true_never_returns body script w :
  (∀ r v, (body r v).1 ≠ Ok Break) -> (while_true body script w).1 ≠ Returned.
Proof.
  intros Hbody. revert w. induction script as [| r script IH]; intros w; simpl; [done |].
  specialize (Hbody r w).
  destruct (body r w) as [[[] | e] v]; simpl in *; [apply IH | done | done].
Qed.

Lemma loop_body_no_break srv r w : (loop_body srv r w).1 ≠ Ok Break.
Proof.
  pose proof (loop_body_cases srv r w) as Hc. destruct r.
  - by rewrite Hc.
  - destruct Hc as (w' & -> & _). done.
Qed.

(** The loop on a script: it stays in the loop through every answer that is
    not an error, and throws at the first one that is. *)
Lemma while_true_loop_body srv script w :
  match while_true (loop_body srv) script w with
  | (Returned, _) => False
  | (Blocked, w') =>
      Forall (fun r => is_wait_ok r = true) script
      ∧ wait_calls (trace w') = (wait_calls (trace w) + length script)%nat
  | (Thrown e, w') =>
      e = wait_error
      ∧ ∃ pre post, script = pre ++ WaitErr :: post
          ∧ Forall (fun r => is_wait_ok r = true) pre
          ∧ wait_calls (trace w') = (wait_calls (trace w) + length pre + 1)%nat
  end.
Proof.
  revert w. induction script as [| r script IH]; intros w; simpl.
  { split; [constructor | lia]. }
  pose proof (loop_body_cases srv r w) as Hc. destruct r as [| evs].
  - rewrite Hc. split; [done |]. exists [], script. simpl.
    split; [done |]. split; [constructor |].
    unfold wait_calls. rewrite filter_app, length_app. simpl. lia.
  - destruct Hc as (w1 & -> & Hw1). specialize (IH w1).
    destruct (while_true (loop_body srv) script w1) as [[| e |] w']; [done | |].
    + destruct IH as (-> & pre & post & -> & Hpre & Hcount). split; [done |].
      exists (WaitOk evs :: pre), post. simpl.
      split; [done |]. split; [by constructor | lia].
    + destruct IH as [Hall Hcount]. split; [by constructor | simpl; lia].
Qed.

Lemma while_true_throws_at srv pre post w :
  Forall (fun r => is_wait_ok r = true) pre ->
  ∃ w', while_true (loop_body srv) (pre ++ WaitErr :: post) w = (Thrown wait_error, w')
        ∧ wait_calls (trace w') = (wait_calls (trace w) + length pre + 1)%nat.
Proof.
  intros Hpre. revert w. induction Hpre as [| r pre Hr Hpre IH]; intros w; simpl.
  - eexists. split; [reflexivity |].
    unfold wait_calls. simpl. rewrite filter_app, length_app. simpl. lia.
  - pose proof (loop_body_cases srv r w) as Hc. destruct r as [| evs]; [done |].
    destruct Hc as (w1 & -> & Hw1). destruct (IH w1) as (w' & -> & Hcount).
    eexists. split; [reflexivity | lia].
Qed.

Lemma run_prologue_cases srv k w :
  let w1 := log (SysListen (_server_fd srv)) w in
  let w2 := log (SysEpollAdd (_epoll_fd srv) (_server_fd srv)) w1 in
  run_prologue srv k w =
    if k_listen k =? -1 then
      (Throw (mkError "Failed to listen on server socket." Kind.SocketListening), w1)
    else if k_epoll_add k =? -1 then
      (Throw (mkError "Failed to add server socket to epoll instance." Kind.EpollAdd), w2)
    else (Ok tt, set_interest (union {[_server_fd srv]}) w2).
Proof.
  unfold run_prologue, bind, lift, throw, ret, sys_listen, sys_epoll_ctl_add. simpl.
  destruct (k_listen k =? -1); [reflexivity |].
  destruct (k_epoll_add k =? -1); reflexivity.
Qed.

(** [Run] on the path where its allocations succeed: it never returns.  On
    every script of [epoll_wait] answers it ends by throwing a setup error
    or is still inside the loop when the script is used up, and it is still
    inside exactly when nothing failed: however long the script, the loop
    has then made one wait per answer.  When the wait call fails, [Run]
    throws [EpollWait] at once: the failing wait is its last, whatever
    answers would have followed. *)
Lemma Run_outcomes srv k script w :
  let r := (Run srv k script w).1 in
  let w' := (Run srv k script w).2 in
  let all_ok := Forall (fun a => is_wait_ok a = true) in
  r ≠ Returned
  ∧ (∀ e, r = Thrown e -> Kind.is_setup (kind e) = true)
  ∧ (r = Blocked ↔ k_listen k ≠ -1 ∧ k_epoll_add k ≠ -1 ∧ all_ok script)
  ∧ (r = Blocked -> wait_calls (trace w') = (wait_calls (trace w) + length script)%nat)
  ∧ (∀ pre post,
       k_listen k ≠ -1 -> k_epoll_add k ≠ -1 ->
       script = pre ++ WaitErr :: post -> all_ok pre ->
       r = Thrown wait_error
       ∧ wait_calls (trace w') = (wait_calls (trace w) + length pre + 1)%nat).
Proof.
  intros r w' all_ok. subst r w' all_ok. unfold Run.
  rewrite run_prologue_cases. simpl.
  destruct (Z.eqb_spec (k_listen k) (-1)) as [Hl | Hl].
  { simpl. repeat split; try done.
    - by intros e [= <-].
    - by intros (? & _). }
  destruct (Z.eqb_spec (k_epoll_add k) (-1)) as [Ha | Ha].
  { simpl. repeat split; try done.
    - by intros e [= <-].
    - by intros (_ & ? & _). }
  set (w0 := set_interest _ _).
  assert (Hw0 : wait_calls (trace w0) = wait_calls (trace w)).
  { unfold wait_calls. subst w0. simpl.
    rewrite <- app_assoc, filter_app. simpl. by rewrite app_nil_r. }
  pose proof (while_true_loop_body srv script w0) as Hloop.
  split; [| split; [| split; [| split]]].
  - apply while_true_never_returns. intros r v. apply loop_body_no_break.
  - destruct (while_true (loop_body srv) script w0) as [[| e |] w1]; try done.
    destruct Hloop as [-> _]. by intros e' [= <-].
  - destruct (while_true (loop_body srv) script w0) as [[| e |] w1]; try done.
    + destruct Hloop as (_ & pre & post & -> & _ & _). simpl.
      split; [done |]. intros (_ & _ & Hall).
      apply Forall_app in Hall as [_ Hall]. by apply Forall_cons in Hall as [? _].
    + by destruct Hloop as [Hall _].
  - destruct (while_true (loop_body srv) script w0) as [[| e |] w1]; try done.
    destruct Hloop as [_ Hcount]. simpl. intros _. lia.
  - intros pre post _ _ -> Hpre.
    destruct (while_true_throws_at srv pre post w0 Hpre) as (w1 & -> & Hcount).
    simpl. split; [done | lia].
Qed.

(** ** Tasks in flight for one handle *)

Lemma count_refs_app h (l l' : list Task) :
  count_refs h (l ++ l') = (count_refs h l + count_refs h l')%nat.
Proof. unfold count_refs. by rewrite filter_app, length_app. Qed.

Lemma count_refs_single h t : (count_refs h [t] <= 1)%nat.
Proof.
  unfold count_refs. rewrite filter_cons, filter_nil.
  destruct (decide (refers_to h t = true)); simpl; lia.
Qed.

Lemma count_refs_cons h t (l : list Task) :
  count_refs h (t :: l) = (count_refs h [t] + count_refs h l)%nat.
Proof. apply (count_refs_app h [t] l). Qed.

Lemma count_refs_delete h i (l : list Task) :
  (count_refs h (delete i l) <= count_refs h l)%nat.
Proof.
  destruct (l !! i) as [t |] eqn:Hi.
  - rewrite <- (take_drop_middle l i t Hi) at 2.
    rewrite delete_take_drop, !count_refs_app, (count_refs_cons h t). lia.
  - apply lookup_ge_None in Hi.
    rewrite delete_take_drop, take_ge, drop_ge, app_nil_r by lia. done.
Qed.

(** The run [two_tasks_run] is possible, and it ends with two workers
    holding the New and the Read task of handle 5. *)
Lemma two_tasks_run_reaches :
  ∃ s, sys_steps main_server two_tasks_run main_system = Some s
       ∧ sys_running s = [TNew 5; TRead 5 (ten_bytes ++ replicate 1014 x00)]
       ∧ queue (sys_world s) = [].
Proof. eexists. split; [by vm_compute |]. split; by vm_compute. Qed.

Lemma main_system_entered : entered main_server main_system.
Proof.
  split; [reflexivity |]. split; [reflexivity |].
  apply (bool_decide_unpack _). by vm_compute.
Qed.

(** C2 (as stated) fails: after [two_tasks_run] two tasks referring to
    handle 5 are in flight, each held by a worker. *)
Lemma C2_two_tasks_for_one_handle :
  ¬ (∀ s : System nat,
       reachable main_server s -> at_most_one_in_flight s ∧ one_worker_per_handle s).
Proof.
  intros Hclaim.
  destruct two_tasks_run_reaches as (s & Hrun & Hrunning & Hqueue).
  destruct (Hclaim s) as [_ Hone].
  { exists main_system, two_tasks_run. split; [apply main_system_entered | done]. }
  specialize (Hone 5). rewrite Hrunning in Hone. vm_compute in Hone. lia.
Qed.

(** C2 (as amended).  Every step changes the number of tasks in flight for
    a handle by what the loop thread queues for one notification: a
    notification adds at most one task, a worker taking or finishing a task
    adds none.  Nothing makes the loop wait for a task to finish, and so a
    run exists in which two workers hold tasks of the same handle. *)
Theorem C2_one_task_per_notification :
  (∀ (H : Type) (HH : Handler H) srv l (s s' : System H) h,
     sys_step srv l s = Some s' ->
     (count_refs h (in_flight s') <= count_refs h (in_flight s) + 1)%nat
     ∧ match l with
       | LEvent _ _ => True
       | _ => (count_refs h (in_flight s') <= count_refs h (in_flight s))%nat
       end)
  ∧ ∃ s2 : System nat,
      reachable main_server s2 ∧ count_refs 5 (sys_running s2) = 2%nat.
Proof.
  split.
  2: { destruct two_tasks_run_reaches as (s2 & Hrun & Hrunning & _).
       exists s2. split.
       - exists main_system, two_tasks_run. split; [apply main_system_entered | done].
       - rewrite Hrunning. by vm_compute. }
  intros H HH srv l s s' h Hstep. unfold in_flight.
  destruct l as [ev k | | i k]; simpl in Hstep.
  - destruct (event_possible ev k (sys_world s)); [| done].
    injection Hstep as <-. simpl. split; [| done]. rewrite !count_refs_app.
    destruct (process_event_queue srv ev k (sys_world s)) as [-> | [t ->]]; [lia |].
    rewrite count_refs_app. pose proof (count_refs_single h t). lia.
  - destruct (queue (sys_world s)) as [| t q]; [done |].
    case_bool_decide; [| done]. injection Hstep as <-. simpl.
    rewrite (count_refs_cons h t), !count_refs_app. lia.
  - destruct (sys_running s !! i) as [t |]; [| done].
    pose proof (run_task_queue t k (sys_handler s) (sys_world s)) as Hq.
    destruct (run_task t k (sys_handler s) (sys_world s)) as [h' w'].
    injection Hstep as <-. simpl in *. rewrite !count_refs_app, Hq.
    pose proof (count_refs_delete h i (sys_running s)). lia.
Qed.

(** C2 (as amended) at work: the second notification of [two_tasks_run]
    queues the Read task of handle 5 while its New task is still queued. *)
Lemma C2_one_task_witness :
  let first := LEvent (mkEvent EPOLLIN 4) (mkEventEnv 5 0 None (PeerOk peer5)) in
  let second :=
    LEvent (mkEvent EPOLLIN 5) (mkEventEnv (-1) 0 (Some ten_bytes) (PeerOk peer5)) in
  ∃ s1 s2,
    sys_step main_server first main_system = Some s1
    ∧ sys_step main_server second s1 = Some s2
    ∧ (count_refs 5 (in_flight s2) <= count_refs 5 (in_flight s1) + 1)%nat
    ∧ count_refs 5 (in_flight s2) = 2%nat.
Proof.
  intros first second.
  destruct (sys_step main_server first main_system) as [s1 |] eqn:H1;
    [| by vm_compute in H1].
  destruct (sys_step main_server second s1) as [s2 |] eqn:H2.
  - exists s1, s2. split; [done |]. split; [done |].
    split.
    { exact (proj1 (proj1 C2_one_task_per_notification nat _ main_server second s1 s2 5 H2)). }
    vm_compute in H1. injection H1 as <-. vm_compute in H2. injection H2 as <-.
    by vm_compute.
  - vm_compute in H1. injection H1 as <-. by vm_compute in H2.
Defined.

(** C3 at work: a Read task on connection 5 whose write fails.  The counting
    handler echoes the ten bytes; the write of the echo fails; the handle is
    closed and [OnError] gets an error of kind [Write]. *)
Lemma C3_failed_write_witness :
  let k := mkWorkerEnv (PeerOk peer5) (Some "Failed to write to a client.") in
  let w' := (HandleConnUpdate Read 0%nat 5 ten_bytes k conn_world).2 in
  trace w' = trace conn_world
             ++ [SysGetpeername 5; CallOnRead peer5 ten_bytes; SysWrite 5 ten_bytes;
                 SysClose 5;
                 CallOnError peer5 (mkError "Failed to write to a client." Kind.Write)]
  ∧ open_fds w' = open_fds conn_world ∖ {[5]}.
Proof.
  intros k w'.
  pose proof (C3_HandleConnUpdate_outcomes Read 0%nat 5 ten_bytes k conn_world)
    as [_ Hout].
  cbn [k_wpeer k_write k OnRead probe_handler app] in Hout.
  destruct Hout as [[Ho _] Ht]. split; [exact Ht | exact Ho].
Defined.

(* ===================================================================== *)
(** * Further properties of the code *)

(** ** The constructor, outcome by outcome *)

(** [Server::Server] as a table: the world after the two member
    initialisers, then the checks in the order of the source. *)
Lemma Server_ctor_cases port threads buf_size max_events k w :
  let w1 := (sys_socket (k_socket k) (sys_epoll_create1 (k_epoll_create1 k) w).2).2 in
  let w2 := log (SysSetsockopt (k_socket k)) w1 in
  let w3 := log (SysBind (k_socket k) port) w2 in
  Server_ctor port threads buf_size max_events k w =
    if max_events <=? 0 then
      (Throw (mkError "Invalid max events." Kind.EpollCreation), w1)
    else if k_epoll_create1 k =? -1 then
      (Throw (mkError "Failed to create epoll instance." Kind.EpollCreation), w1)
    else if k_socket k =? -1 then
      (Throw (mkError "Failed to create server socket." Kind.SocketCreation), w1)
    else if k_setsockopt k =? -1 then
      (Throw (mkError "Failed to set socket options." Kind.SocketCreation), w2)
    else if k_bind k =? -1 then
      (Throw (mkError "Failed to bind server socket." Kind.SocketBinding), w3)
    else
      (Ok (mkServer (k_epoll_create1 k) port buf_size max_events (k_socket k) threads), w3).
Proof.
  unfold Server_ctor, bind, lift, throw, ret, sys_setsockopt, sys_bind,
    sys_socket, sys_epoll_create1. simpl.
  repeat match goal with |- context [if ?b then _ else _] => destruct b end;
    reflexivity.
Qed.

(** The world after the two member initialisers. *)
Lemma Server_ctor_initialisers k w :
  let w1 := (sys_socket (k_socket k) (sys_epoll_create1 (k_epoll_create1 k) w).2).2 in
  trace w1 = trace w ++ [SysEpollCreate (k_epoll_create1 k); SysSocket (k_socket k)]
  ∧ interest w1 = interest w ∧ queue w1 = queue w
  ∧ (∀ fd, fd ∈ open_fds w1 ↔
           fd ∈ open_fds w
           ∨ (fd = k_epoll_create1 k ∧ fd ≠ -1) ∨ (fd = k_socket k ∧ fd ≠ -1)).
Proof.
  unfold sys_socket, sys_epoll_create1. simpl.
  destruct (Z.eqb_spec (k_epoll_create1 k) (-1)) as [He | He],
           (Z.eqb_spec (k_socket k) (-1)) as [Hs | Hs]; simpl;
    rewrite <- ?app_assoc; (split; [done |]); (split; [done |]); (split; [done |]);
    intros fd; rewrite ?elem_of_union, ?elem_of_singleton; intuition congruence.
Qed.

Ltac ctor_table port threads buf_size max_events k w Hc :=
  pose proof (Server_ctor_cases port threads buf_size max_events k w) as Hc;
  destruct (Server_ctor_initialisers k w) as (Htr & Hin & Hq & Hop);
  cbv zeta in Hc, Htr, Hin, Hq, Hop;
  set (w1 := (sys_socket (k_socket k) (sys_epoll_create1 (k_epoll_create1 k) w).2).2) in *;
  clearbody w1.

(** X3.  Construction succeeds exactly when [max_events] is positive and
    none of [epoll_create1], [socket], [setsockopt] and [bind] fails.  The
    server then holds the two descriptors the kernel gave, both are open,
    nothing is registered or queued yet, and the four calls were made in
    this order. *)
Theorem Server_ctor_succeeds_iff port threads buf_size max_events k w :
  let r := Server_ctor port threads buf_size max_events k w in
  ((∃ srv, r.1 = Ok srv)
   ↔ 0 < max_events ∧ k_epoll_create1 k ≠ -1 ∧ k_socket k ≠ -1
     ∧ k_setsockopt k ≠ -1 ∧ k_bind k ≠ -1)
  ∧ (∀ srv, r.1 = Ok srv ->
       srv = mkServer (k_epoll_create1 k) port buf_size max_events (k_socket k) threads
       ∧ _epoll_fd srv ∈ open_fds r.2 ∧ _server_fd srv ∈ open_fds r.2
       ∧ interest r.2 = interest w ∧ queue r.2 = queue w
       ∧ trace r.2 = trace w ++ [SysEpollCreate (k_epoll_create1 k);
                                 SysSocket (k_socket k);
                                 SysSetsockopt (k_socket k);
                                 SysBind (k_socket k) port]).
Proof.
  intros r. subst r. ctor_table port threads buf_size max_events k w Hc. rewrite Hc.
  destruct (Z.leb_spec max_events 0) as [Hm | Hm];
    [split; [split; [by intros [? ?] | lia] | done] |].
  destruct (Z.eqb_spec (k_epoll_create1 k) (-1)) as [He | He];
    [split; [split; [by intros [? ?] | by intros (_ & ? & _)] | done] |].
  destruct (Z.eqb_spec (k_socket k) (-1)) as [Hs | Hs];
    [split; [split; [by intros [? ?] | by intros (_ & _ & ? & _)] | done] |].
  destruct (Z.eqb_spec (k_setsockopt k) (-1)) as [Ho | Ho];
    [split; [split; [by intros [? ?] | by intros (_ & _ & _ & ? & _)] | done] |].
  destruct (Z.eqb_spec (k_bind k) (-1)) as [Hb | Hb];
    [split; [split; [by intros [? ?] | by intros (_ & _ & _ & _ & ?)] | done] |].
  split; [split; [done | eauto] |].
  intros srv [= <-]. simpl. rewrite Htr, <- !app_assoc. simpl.
  split; [done |]. split; [apply Hop; auto |]. split; [apply Hop; auto |]. done.
Qed.

(** X4.  A [max_events] that is not positive is refused first: whatever the
    kernel answers, construction throws "Invalid max events." with kind
    [EpollCreation], and neither [setsockopt] nor [bind] is called. *)
Theorem Server_ctor_invalid_max_events port threads buf_size max_events k w :
  max_events <= 0 ->
  let r := Server_ctor port threads buf_size max_events k w in
  r.1 = Throw (mkError "Invalid max events." Kind.EpollCreation)
  ∧ trace r.2 = trace w ++ [SysEpollCreate (k_epoll_create1 k); SysSocket (k_socket k)].
Proof.
  intros Hm r. subst r. ctor_table port threads buf_size max_events k w Hc. rewrite Hc.
  destruct (Z.leb_spec max_events 0); [done | lia].
Qed.

(** For instance [Server(8080, 4, 1024, -3)] with a kernel that would have
    let everything succeed. *)
Lemma Server_ctor_invalid_max_events_witness :
  (Server_ctor 8080 4 1024 (-3) main_env world0).1
  = Throw (mkError "Invalid max events." Kind.EpollCreation).
Proof.
  exact (proj1 (Server_ctor_invalid_max_events 8080 4 1024 (-3) main_env world0
                  ltac:(lia))).
Defined.

(** X5.  Construction and destruction undo each other: when the kernel hands
    out descriptors that were not open, the destructor of the constructed
    server leaves exactly the descriptors that were open before.  Whenever
    it runs, the destructor closes its own two descriptors and no other. *)
Theorem Server_ctor_dtor_round_trip port threads buf_size max_events k w srv w' :
  Server_ctor port threads buf_size max_events k w = (Ok srv, w') ->
  k_epoll_create1 k ∉ open_fds w -> k_socket k ∉ open_fds w ->
  open_fds (Server_dtor srv w') = open_fds w
  ∧ (∀ v fd, fd ∈ open_fds (Server_dtor srv v)
             ↔ fd ∈ open_fds v ∧ fd ≠ _epoll_fd srv ∧ fd ≠ _server_fd srv).
Proof.
  intros Hctor He Hs. ctor_table port threads buf_size max_events k w Hc.
  rewrite Hc in Hctor.
  repeat match type of Hctor with
         | (if ?b then _ else _) = _ => destruct b; [done |]
         end.
  injection Hctor as <- <-. split.
  - apply set_eq. intros fd. simpl.
    rewrite !elem_of_difference, !elem_of_singleton, Hop.
    split; [tauto |]. intros Hfd.
    split; [split; [tauto |] |]; intros ->; contradiction.
  - intros v fd. simpl. rewrite !elem_of_difference, !elem_of_singleton. tauto.
Qed.

(** For instance the server of [main], built in the empty world. *)
Lemma Server_ctor_dtor_round_trip_witness :
  open_fds (Server_dtor main_server (Server_ctor 8080 4 1024 16 main_env world0).2) = ∅.
Proof.
  exact (proj1 (Server_ctor_dtor_round_trip 8080 4 1024 16 main_env world0
                  main_server _ eq_refl
                  ltac:(apply not_elem_of_empty) ltac:(apply not_elem_of_empty))).
Defined.

(** ** What the loop thread does and does not do *)

Lemma process_events_trace srv n evs w :
  ∃ l, trace (process_events srv n evs w) = trace w ++ l
       ∧ Forall (fun a => is_loop_syscall a = true) l.
Proof.
  unfold process_events. generalize (take (Z.to_nat n) evs) as es. intros es.
  revert w. induction es as [| [ev k] es IH]; intros w; simpl.
  - exists []. by rewrite app_nil_r.
  - destruct (IH (process_event srv ev k w)) as (l2 & -> & Hl2).
    destruct (process_event_trace srv ev k w) as (l1 & -> & Hl1).
    exists (l1 ++ l2). rewrite app_assoc. split; [done | by apply Forall_app].
Qed.

Lemma loop_body_trace srv r w :
  ∃ l, trace (loop_body srv r w).2 = trace w ++ SysEpollWait (_epoll_fd srv) :: l
       ∧ Forall (fun a => is_loop_syscall a = true) l.
Proof.
  unfold loop_body, sys_epoll_wait. destruct r as [| evs]; simpl.
  - by exists [].
  - destruct (Z.eqb_spec (Z.of_nat (length (take (Z.to_nat (_max_events srv)) evs))) (-1));
      [lia |]. simpl.
    destruct (process_events_trace srv
                (Z.of_nat (length (take (Z.to_nat (_max_events srv)) evs)))
                (take (Z.to_nat (_max_events srv)) evs)
                (log (SysEpollWait (_epoll_fd srv)) w)) as (l & -> & Hl).
    exists l. simpl. by rewrite <- app_assoc.
Qed.

Lemma Run_trace srv k script w :
  ∃ l, trace (Run srv k script w).2 = trace w ++ l
       ∧ Forall (fun a => is_run_syscall a = true) l.
Proof.
  assert (Hloop : ∀ a, is_loop_syscall a = true -> is_run_syscall a = true).
  { by intros []. }
  assert (Hwhile : ∀ v, ∃ l,
             trace (while_true (loop_body srv) script v).2 = trace v ++ l
             ∧ Forall (fun a => is_run_syscall a = true) l).
  { induction script as [| r script IH]; intros v; simpl.
    - exists []. by rewrite app_nil_r.
    - destruct (loop_body_trace srv r v) as (l1 & Hl1 & Hf1).
      assert (Hf1' : Forall (fun a => is_run_syscall a = true)
                       (SysEpollWait (_epoll_fd srv) :: l1)).
      { constructor; [done |]. eapply Forall_impl; [exact Hf1 | exact Hloop]. }
      destruct (loop_body srv r v) as [[[] | e] v1]; simpl in *.
      + destruct (IH v1) as (l2 & -> & Hf2). rewrite Hl1.
        eexists. rewrite <- app_assoc. split; [reflexivity | by apply Forall_app].
      + eauto.
      + eauto. }
  unfold Run. rewrite run_prologue_cases. simpl.
  destruct (k_listen k =? -1); [| destruct (k_epoll_add k =? -1)]; simpl.
  - eexists. split; [reflexivity | by repeat constructor].
  - eexists. rewrite <- app_assoc. split; [reflexivity | by repeat constructor].
  - destruct (Hwhile (set_interest (union {[_server_fd srv]})
                        (log (SysEpollAdd (_epoll_fd srv) (_server_fd srv))
                           (log (SysListen (_server_fd srv)) w)))) as (l & -> & Hl).
    simpl. eexists. rewrite <- !app_assoc. split; [reflexivity |].
    simpl. by repeat constructor.
Qed.

(** X6.  The loop thread never calls the handler and never writes to a
    connection: whatever the kernel answers and however long [Run] goes on,
    everything it does is [listen], [epoll_ctl], [epoll_wait], [accept],
    [read], [getpeername] and [close]. *)
Theorem Run_never_calls_or_writes srv k script w :
  ∃ l, trace (Run srv k script w).2 = trace w ++ l
       ∧ Forall (fun a => is_call a = false ∧ is_write a = false) l
       ∧ Forall (fun a => is_run_syscall a = true) l.
Proof.
  destruct (Run_trace srv k script w) as (l & Hl & Hf).
  exists l. split; [done |]. split; [| done].
  eapply Forall_impl; [exact Hf |]. by intros [].
Qed.

(** X7.  A failure before the loop is fatal at once.  When [listen] fails
    [Run] throws [SocketListening] and when the registration of the
    listening socket fails it throws [EpollAdd]; in both cases the script of
    later answers plays no part: no wait, no accept, nothing queued, and the
    listening socket is not registered. *)
Theorem Run_setup_failure srv k script w :
  k_listen k = -1 ∨ k_epoll_add k = -1 ->
  let r := Run srv k script w in
  r.1 = Thrown (if k_listen k =? -1
                then mkError "Failed to listen on server socket." Kind.SocketListening
                else mkError "Failed to add server socket to epoll instance."
                             Kind.EpollAdd)
  ∧ trace r.2 = trace w ++ (if k_listen k =? -1
                            then [SysListen (_server_fd srv)]
                            else [SysListen (_server_fd srv);
                                  SysEpollAdd (_epoll_fd srv) (_server_fd srv)])
  ∧ queue r.2 = queue w ∧ interest r.2 = interest w ∧ open_fds r.2 = open_fds w.
Proof.
  intros Hfail r. subst r. unfold Run. rewrite run_prologue_cases. simpl.
  destruct (Z.eqb_spec (k_listen k) (-1)) as [Hl | Hl]; [done |].
  destruct (Z.eqb_spec (k_epoll_add k) (-1)) as [Ha | Ha]; [| by destruct Hfail].
  simpl. by rewrite <- app_assoc.
Qed.

(** For instance [main_server] when the registration fails, with a script
    that would have accepted a connection. *)
Lemma Run_setup_failure_witness :
  let script := [WaitOk [(mkEvent EPOLLIN 4, mkEventEnv 5 0 None (PeerOk peer5))]] in
  let w0 := (Server_ctor 8080 4 1024 16 main_env world0).2 in
  (Run main_server (mkRunEnv 0 (-1)) script w0).1
  = Thrown (mkError "Failed to add server socket to epoll instance." Kind.EpollAdd)
  ∧ queue (Run main_server (mkRunEnv 0 (-1)) script w0).2 = [].
Proof.
  intros script w0.
  destruct (Run_setup_failure main_server (mkRunEnv 0 (-1)) script w0
              ltac:(by right)) as (Hr & _ & Hq & _).
  split; [exact Hr | exact Hq].
Defined.

(** ** The queue as the loop thread leaves it *)

Lemma process_events_queue srv n evs w :
  ∃ ts, queue (process_events srv n evs w) = queue w ++ ts
        ∧ (length ts <= length (take (Z.to_nat n) evs))%nat.
Proof.
  unfold process_events. generalize (take (Z.to_nat n) evs) as es. intros es.
  revert w. induction es as [| [ev k] es IH]; intros w; simpl.
  - exists []. by rewrite app_nil_r.
  - destruct (IH (process_event srv ev k w)) as (ts & -> & Hts).
    destruct (process_event_queue srv ev k w) as [-> | [t ->]].
    + exists ts. split; [done | lia].
    + exists (t :: ts). rewrite <- app_assoc. split; [done | simpl; lia].
Qed.

Lemma loop_body_queue srv r w :
  ∃ ts, queue (loop_body srv r w).2 = queue w ++ ts
        ∧ (length ts <= Z.to_nat (_max_events srv))%nat.
Proof.
  unfold loop_body, sys_epoll_wait. destruct r as [| evs]; simpl.
  - exists []. rewrite app_nil_r. split; [done | simpl; lia].
  - destruct (Z.eqb_spec (Z.of_nat (length (take (Z.to_nat (_max_events srv)) evs))) (-1));
      [lia |]. simpl.
    destruct (process_events_queue srv
                (Z.of_nat (length (take (Z.to_nat (_max_events srv)) evs)))
                (take (Z.to_nat (_max_events srv)) evs)
                (log (SysEpollWait (_epoll_fd srv)) w)) as (ts & -> & Hts).
    exists ts. split; [done |].
    rewrite !length_take in Hts. lia.
Qed.

(** X8.  The loop thread only appends to the task queue: what was queued
    when [Run] was called is still there, in the same order, in front of
    what [Run] added; and each wait adds at most [max_events] tasks. *)
Theorem Run_queue_append_only srv k script w :
  (∃ ts, queue (Run srv k script w).2 = queue w ++ ts
         ∧ (length ts <= length script * Z.to_nat (_max_events srv))%nat)
  ∧ (∀ r v, ∃ ts, queue (loop_body srv r v).2 = queue v ++ ts
                  ∧ (length ts <= Z.to_nat (_max_events srv))%nat).
Proof.
  split; [| intros r v; apply loop_body_queue].
  assert (Hwhile : ∀ v, ∃ ts,
             queue (while_true (loop_body srv) script v).2 = queue v ++ ts
             ∧ (length ts <= length script * Z.to_nat (_max_events srv))%nat).
  { induction script as [| r script IH]; intros v; simpl.
    - exists []. rewrite app_nil_r. split; [done | simpl; lia].
    - destruct (loop_body_queue srv r v) as (t1 & Hq1 & Hb1).
      destruct (loop_body srv r v) as [[[] | e] v1]; simpl in *.
      + destruct (IH v1) as (t2 & -> & Hb2). rewrite Hq1.
        exists (t1 ++ t2). rewrite <- app_assoc, length_app. split; [done | lia].
      + exists t1. split; [done | lia].
      + exists t1. split; [done | lia]. }
  unfold Run. rewrite run_prologue_cases. simpl.
  destruct (k_listen k =? -1); [| destruct (k_epoll_add k =? -1)]; simpl.
  - exists []. rewrite app_nil_r. split; [done | simpl; lia].
  - exists []. rewrite app_nil_r. split; [done | simpl; lia].
  - destruct (Hwhile (set_interest (union {[_server_fd srv]})
                        (log (SysEpollAdd (_epoll_fd srv) (_server_fd srv))
                           (log (SysListen (_server_fd srv)) w)))) as (ts & -> & Hts).
    by exists ts.
Qed.

(** ** Descriptors that a notification leaves alone *)

Lemma process_event_other_fd srv ev k w fd :
  fd ≠ touched_fd srv ev k ->
  (fd ∈ open_fds (process_event srv ev k w) ↔ fd ∈ open_fds w)
  ∧ (fd ∈ interest (process_event srv ev k w) ↔ fd ∈ interest w).
Proof.
  unfold touched_fd. intros Hfd.
  destruct (decide (Z.land (events ev) EPOLLHUP = 0)) as [Hh | Hh];
    [| by rewrite process_event_hup].
  destruct (Z.eqb_spec (data_fd ev) (_server_fd srv)) as [Hs | Hs].
  - rewrite process_event_listen by done. simpl.
    destruct (k_accept k =? -1); [done |].
    destruct (k_epoll_ctl k =? -1); simpl;
      rewrite ?elem_of_difference, ?elem_of_union, ?elem_of_singleton; tauto.
  - rewrite process_event_conn by done. simpl.
    unfold sys_read, address_or_default, GetClientAddress.
    destruct (_buf_size srv), (k_read k), (k_peer k); simpl;
      repeat match goal with |- context [if ?b then _ else _] => destruct b end;
      simpl; rewrite ?elem_of_difference, ?elem_of_singleton; tauto.
Qed.

(** X9.  Handling one notification leaves every other connection alone: a
    descriptor other than the one accepted (on the listening socket) or the
    one notified (on a connection) is open and registered afterwards exactly
    if it was before.  The only descriptor that can become open or
    registered is the accepted one. *)
Theorem process_event_frame srv ev k w :
  let w' := process_event srv ev k w in
  (∀ fd, fd ≠ touched_fd srv ev k ->
         (fd ∈ open_fds w' ↔ fd ∈ open_fds w) ∧ (fd ∈ interest w' ↔ fd ∈ interest w))
  ∧ (∀ fd, fd ∈ open_fds w' -> fd ∈ open_fds w ∨ fd = k_accept k)
  ∧ (∀ fd, fd ∈ interest w' -> fd ∈ interest w ∨ fd = k_accept k).
Proof.
  intros w'. subst w'. split; [intros fd; apply process_event_other_fd |].
  destruct (decide (Z.land (events ev) EPOLLHUP = 0)) as [Hh | Hh];
    [| rewrite process_event_hup by done; auto].
  destruct (decide (data_fd ev = _server_fd srv)) as [Hs | Hs].
  - rewrite process_event_listen by done. simpl.
    destruct (k_accept k =? -1); [auto |].
    destruct (k_epoll_ctl k =? -1); simpl; split; intros fd;
      rewrite ?elem_of_difference, ?elem_of_union, ?elem_of_singleton; tauto.
  - rewrite process_event_conn by done. simpl.
    unfold sys_read, address_or_default, GetClientAddress.
    destruct (_buf_size srv), (k_read k), (k_peer k); simpl;
      repeat match goal with |- context [if ?b then _ else _] => destruct b end;
      simpl; split; intros fd; rewrite ?elem_of_difference, ?elem_of_singleton; tauto.
Qed.

(** ** The listening socket stays registered *)

Lemma process_events_keep_fd srv n evs w fd :
  Forall (fun ek => fd ≠ touched_fd srv ek.1 ek.2) (take (Z.to_nat n) evs) ->
  (fd ∈ open_fds (process_events srv n evs w) ↔ fd ∈ open_fds w)
  ∧ (fd ∈ interest (process_events srv n evs w) ↔ fd ∈ interest w).
Proof.
  unfold process_events. generalize (take (Z.to_nat n) evs) as es. intros es Hes.
  revert w. induction Hes as [| [ev k] es Hek _ IH]; intros w; simpl; [done |].
  destruct (IH (process_event srv ev k w)) as [Ho Hi].
  destruct (process_event_other_fd srv ev k w fd Hek) as [Ho' Hi'].
  split; [by rewrite Ho | by rewrite Hi].
Qed.

Lemma server_fd_not_touched srv ev k :
  k_accept k ≠ _server_fd srv -> _server_fd srv ≠ touched_fd srv ev k.
Proof.
  unfold touched_fd. intros Hk.
  destruct (Z.eqb_spec (data_fd ev) (_server_fd srv)); congruence.
Qed.

(** X12.  The listening socket stays open and registered for as long as
    [Run] goes on: if [Run] gets past its two setup calls and [accept] never
    answers with the listening socket's own descriptor, then after any
    number of waits, and also when a wait fails, the listening socket is
    open and in the interest list. *)
Theorem Run_keeps_listening_socket srv k script w :
  k_listen k ≠ -1 -> k_epoll_add k ≠ -1 ->
  _server_fd srv ∈ open_fds w ->
  Forall (accepts_avoid (_server_fd srv)) script ->
  _server_fd srv ∈ open_fds (Run srv k script w).2
  ∧ _server_fd srv ∈ interest (Run srv k script w).2.
Proof.
  intros Hl Ha Hopen Hscript.
  assert (Hwhile : ∀ v, _server_fd srv ∈ open_fds v -> _server_fd srv ∈ interest v ->
             _server_fd srv ∈ open_fds (while_true (loop_body srv) script v).2
             ∧ _server_fd srv ∈ interest (while_true (loop_body srv) script v).2).
  { induction Hscript as [| r script Hr _ IH]; intros v Ho Hi; simpl; [done |].
    assert (Hbody : _server_fd srv ∈ open_fds (loop_body srv r v).2
                    ∧ _server_fd srv ∈ interest (loop_body srv r v).2).
    { unfold loop_body, sys_epoll_wait. destruct r as [| evs]; simpl; [done |].
      destruct (Z.eqb_spec (Z.of_nat (length (take (Z.to_nat (_max_events srv)) evs))) (-1));
        [lia |]. simpl.
      edestruct (process_events_keep_fd srv) as [Ho' Hi']; [| rewrite Ho', Hi'; done].
      apply Forall_take, Forall_take. simpl in Hr.
      eapply Forall_impl; [exact Hr |]. intros [ev ke] Hke.
      by apply server_fd_not_touched. }
    destruct (loop_body srv r v) as [[[] | e] v1]; simpl in *; [| done | done].
    destruct Hbody. by apply IH. }
  unfold Run. rewrite run_prologue_cases. simpl.
  destruct (Z.eqb_spec (k_listen k) (-1)); [done |].
  destruct (Z.eqb_spec (k_epoll_add k) (-1)); [done |].
  apply Hwhile; simpl; [done |].
  apply elem_of_union. left. by apply elem_of_singleton.
Qed.

(** For instance [main_server] over two waits: a connection is accepted on
    descriptor 5, then its peer shuts down. *)
Lemma Run_keeps_listening_socket_witness :
  let script :=
    [WaitOk [(mkEvent EPOLLIN 4, mkEventEnv 5 0 None (PeerOk peer5))];
     WaitOk [(mkEvent EPOLLIN 5, mkEventEnv (-1) 0 (Some []) (PeerOk peer5))]] in
  let w0 := (Server_ctor 8080 4 1024 16 main_env world0).2 in
  4 ∈ interest (Run main_server (mkRunEnv 0 0) script w0).2.
Proof.
  intros script w0.
  refine (proj2 (Run_keeps_listening_socket main_server (mkRunEnv 0 0) script w0
                   ltac:(discriminate) ltac:(discriminate) _ _)).
  - apply (bool_decide_unpack _). by vm_compute.
  - repeat constructor; simpl; discriminate.
Defined.

(** ** A connection that comes and goes *)

Lemma union_difference_fresh (c : Z) (X : gset Z) :
  c ∉ X -> ({[c]} ∪ X) ∖ {[c]} = X.
Proof.
  intros Hc. apply set_eq. intros x.
  rewrite elem_of_difference, elem_of_union, elem_of_singleton.
  split; [tauto |]. intros Hx. split; [tauto |]. by intros ->.
Qed.

(** X13.  A connection that is accepted and whose peer then shuts down
    without sending leaves no descriptor behind: after the two
    notifications the open descriptors and the interest list are what they
    were, and the queue has gained the New task and then the [OnClose]
    closure, in this order. *)
Theorem accept_then_shutdown srv ev1 k1 ev2 k2 w :
  Z.land (events ev1) EPOLLHUP = 0 -> Z.land (events ev2) EPOLLHUP = 0 ->
  data_fd ev1 = _server_fd srv ->
  k_accept k1 ≠ -1 -> k_epoll_ctl k1 ≠ -1 ->
  k_accept k1 ≠ _server_fd srv ->
  k_accept k1 ∉ open_fds w -> k_accept k1 ∉ interest w ->
  data_fd ev2 = k_accept k1 -> k_read k2 = Some [] ->
  let a := match k_peer k2 with PeerOk a => a | PeerErr _ => sockaddr_zero end in
  let w' := process_event srv ev2 k2 (process_event srv ev1 k1 w) in
  open_fds w' = open_fds w ∧ interest w' = interest w
  ∧ queue w' = queue w ++ [TNew (k_accept k1); TOnClose a].
Proof.
  intros Hh1 Hh2 Hfd1 Hc Hr Hcs Hco Hci Hfd2 Hrd a w'. subst w' a.
  rewrite (process_event_conn srv ev2) by (done || congruence).
  rewrite process_event_listen by done. simpl.
  destruct (Z.eqb_spec (k_accept k1) (-1)); [done |].
  destruct (Z.eqb_spec (k_epoll_ctl k1) (-1)); [done |].
  unfold sys_read, address_or_default, GetClientAddress. rewrite Hrd, Hfd2.
  destruct (_buf_size srv), (k_peer k2); simpl;
    rewrite !union_difference_fresh, <- ?app_assoc by done; done.
Qed.

(** For instance on [main_server]: descriptor 5 is accepted, then read at
    end of stream. *)
Lemma accept_then_shutdown_witness :
  let k1 := mkEventEnv 5 0 None (PeerOk peer5) in
  let k2 := mkEventEnv (-1) 0 (Some []) (PeerOk peer5) in
  queue (process_event main_server (mkEvent EPOLLIN 5) k2
           (process_event main_server (mkEvent EPOLLIN 4) k1 main_world))
  = [TNew 5; TOnClose peer5].
Proof.
  intros k1 k2.
  refine (proj2 (proj2 (accept_then_shutdown main_server (mkEvent EPOLLIN 4) k1
                          (mkEvent EPOLLIN 5) k2 main_world
                          eq_refl eq_refl eq_refl ltac:(discriminate)
                          ltac:(discriminate) ltac:(discriminate) _ _ eq_refl eq_refl))).
  - apply (bool_decide_unpack _). by vm_compute.
  - apply (bool_decide_unpack _). by vm_compute.
Defined.

(** ** What a worker touches *)

(** X10.  A worker that runs a task never queues anything, never opens or
    registers a descriptor, and leaves every descriptor other than the
    task's own handle open and registered exactly as it was. *)
Theorem run_task_frame `{Handler H} t k (handler : H) w :
  let w' := (run_task t k handler w).2 in
  queue w' = queue w
  ∧ (∀ fd, fd ∈ open_fds w' -> fd ∈ open_fds w)
  ∧ (∀ fd, fd ∈ interest w' -> fd ∈ interest w)
  ∧ (∀ fd, task_fd t ≠ Some fd ->
           (fd ∈ open_fds w' ↔ fd ∈ open_fds w) ∧ (fd ∈ interest w' ↔ fd ∈ interest w)).
Proof.
  intros w'. subst w'. split; [apply run_task_queue |].
  destruct t as [c | c buf | a e | a]; simpl; [handle_conn_cases k .. | |];
    (split; [| split]); intros fd; try tauto;
    rewrite ?elem_of_difference, ?elem_of_singleton; try tauto.
  all: intros Hfd; assert (fd ≠ c) by congruence; tauto.
Qed.

(** X11.  The handler calls of a task, exactly.  A New task calls [OnNew]
    and a Read task calls [OnRead] with the task's bytes, each followed by
    [OnError] with the error of the write when the write fails; when the
    peer address cannot be resolved the only call is [OnError] with the
    default address and the error of the resolution.  The other two
    closures call [OnError] and [OnClose] with what they captured.  So a
    task makes one call or two, and two exactly when it is a New or a Read
    task whose address was resolved and whose write failed. *)
Theorem run_task_call_count `{Handler H} t k (handler : H) w :
  let after_write (a : sockaddr_in) :=
    match k_write k with
    | Some msg => [CallOnError a (mkError msg Kind.Write)]
    | None => []
    end in
  let calls :=
    match t with
    | TNew _ =>
        match k_wpeer k with
        | PeerErr e => [CallOnError sockaddr_zero e]
        | PeerOk a => CallOnNew a :: after_write a
        end
    | TRead _ in_buf =>
        match k_wpeer k with
        | PeerErr e => [CallOnError sockaddr_zero e]
        | PeerOk a => CallOnRead a in_buf :: after_write a
        end
    | TOnError a e => [CallOnError a e]
    | TOnClose a => [CallOnClose a]
    end in
  filter (fun a => is_call a = true) (trace (run_task t k handler w).2)
  = filter (fun a => is_call a = true) (trace w) ++ calls
  ∧ (length calls = 1%nat ∨ length calls = 2%nat)
  ∧ (length calls = 2%nat
     ↔ is_Some (task_fd t) ∧ (∃ a, k_wpeer k = PeerOk a) ∧ is_Some (k_write k)).
Proof.
  intros after_write calls. subst after_write calls.
  destruct t as [c | c buf | a e | a]; simpl; [handle_conn_cases k .. | |];
    rewrite <- ?app_assoc, filter_app; simpl;
    (split; [reflexivity |]); (split; [auto |]);
    (split; [try done; intros _; eauto |]).
  all: try (intros (_ & _ & [? ?]); done).
  all: try (intros (_ & [? ?] & _); done).
  all: try (intros ([? ?] & _); done).
Qed.

(** ** [main] *)




(** X15.  When [Run] throws, [main] gives back the server's two descriptors
    before it returns: the server was constructed, so the exception destroys
    it on its way to the [catch]. *)
Theorem main_closes_server_after_Run_throws kc kr script w code :
  k_epoll_create1 kc ≠ -1 -> k_socket kc ≠ -1 ->
  k_setsockopt kc ≠ -1 -> k_bind kc ≠ -1 ->
  (main kc kr script w).1.1 = Exit code ->
  let w' := (main kc kr script w).2 in
  (k_epoll_create1 kc ∉ open_fds w') ∧ (k_socket kc ∉ open_fds w')
  ∧ (k_epoll_create1 kc ∉ interest w') ∧ (k_socket kc ∉ interest w')
  ∧ ∃ l, trace w' = l ++ [SysClose (k_epoll_create1 kc); SysClose (k_socket kc)].
Proof.
  intros He Hs Ho Hb. unfold main.
  ctor_table PORT THREADS BUFFER_SIZE EVENTS kc w Hc. rewrite Hc. clear Hc.
  change (EVENTS <=? 0) with false. cbv iota.
  destruct (Z.eqb_spec (k_epoll_create1 kc) (-1)); [done |].
  destruct (Z.eqb_spec (k_socket kc) (-1)); [done |].
  destruct (Z.eqb_spec (k_setsockopt kc) (-1)); [done |].
  destruct (Z.eqb_spec (k_bind kc) (-1)); [done |].
  match goal with |- context [Run ?srv kr script ?v] =>
    destruct (Run srv kr script v) as [[| e |] v1]
  end; simpl; [| | done]; intros _;
    rewrite !elem_of_difference, !elem_of_singleton;
    (repeat split; [tauto .. |]); eexists; by rewrite <- app_assoc.
Qed.

(** For instance the listening socket cannot be put in the listening state:
    [main] returns [EXIT_FAILURE] with descriptors 3 and 4 closed. *)
Lemma main_closes_server_witness :
  let w' := (main main_env (mkRunEnv (-1) 0) [] world0).2 in
  (main main_env (mkRunEnv (-1) 0) [] world0).1.1 = Exit EXIT_FAILURE
  ∧ (3 ∉ open_fds w') ∧ (4 ∉ open_fds w').
Proof.
  intros w'.
  destruct (main_closes_server_after_Run_throws main_env (mkRunEnv (-1) 0) [] world0
              EXIT_FAILURE ltac:(discriminate) ltac:(discriminate)
              ltac:(discriminate) ltac:(discriminate) eq_refl) as (H3 & H4 & _).
  split; [reflexivity |]. split; [exact H3 | exact H4].
Defined.

(** ** [Run] with its allocations *)


Lemma vector_ctor_ok count elem_size :
  count <= PTRDIFF_MAX / elem_size -> vector_ctor count elem_size true = None.
Proof.
  intros Hc. unfold vector_ctor.
  destruct (Z.ltb_spec (PTRDIFF_MAX / elem_size) count); [lia |].
  by rewrite orb_true_r.
Qed.

(** One notification: it goes on as [process_event], or the constructor of
    [in_buf] throws before anything is done. *)
Lemma process_event_alloc_cases srv ev k mem w :
  process_event_alloc srv ev k mem w = (None, process_event srv ev k w)
  ∨ ∃ x, process_event_alloc srv ev k mem w = (Some x, w)
         ∧ Z.land (events ev) EPOLLHUP = 0 ∧ data_fd ev ≠ _server_fd srv
         ∧ vector_ctor (Z.of_nat (_buf_size srv)) 1 mem = Some x.
Proof.
  unfold process_event_alloc.
  destruct (Z.eqb_spec (Z.land (events ev) EPOLLHUP) 0) as [Hh | Hh]; simpl;
    [| left; by rewrite process_event_hup].
  destruct (Z.eqb_spec (data_fd ev) (_server_fd srv)) as [Hs | Hs]; [by left |].
  destruct (vector_ctor _ 1 mem) as [x |] eqn:Hv; [right; eauto | by left].
Qed.


Lemma process_events_alloc_ok srv mem i evs w :
  Z.of_nat (_buf_size srv) <= PTRDIFF_MAX -> (∀ j, mem j = true) ->
  process_events_alloc srv mem i evs w
  = (None, foldl (fun w ek => process_event srv ek.1 ek.2 w) w evs).
Proof.
  intros Hb Hm. revert i w. induction evs as [| [ev k] evs IH]; intros i w; simpl; [done |].
  destruct (process_event_alloc_cases srv ev k (mem i) w) as [-> | (x & _ & _ & _ & Hv)].
  - apply IH.
  - rewrite Hm, vector_ctor_ok in Hv; [done | by rewrite Z.div_1_r].
Qed.


(** When no allocation fails the iteration is the one of [loop_body]. *)
Lemma loop_body_alloc_ok srv r w :
  Z.of_nat (_buf_size srv) <= PTRDIFF_MAX -> (∀ j, r.2 j = true) ->
  loop_body_alloc srv r w
  = match loop_body srv r.1 w with
    | (Ok c, v) => (inr c, v)
    | (Throw e, v) => (inl (ServerError e), v)
    end.
Proof.
  intros Hb Hm. unfold loop_body_alloc, loop_body, throw.
  destruct (sys_epoll_wait r.1 (_epoll_fd srv) (_max_events srv) w) as [[n evs] v].
  destruct (n =? -1); [done |].
  by rewrite process_events_alloc_ok.
Qed.





(** When no allocation fails [Run_alloc] is [Run]. *)
Lemma Run_alloc_no_failure srv k events_mem script w :
  vector_ctor (_max_events srv mod SIZE_MODULUS) sizeof_epoll_event events_mem = None ->
  Z.of_nat (_buf_size srv) <= PTRDIFF_MAX ->
  Forall (fun r => ∀ j, r.2 j = true) script ->
  Run_alloc srv k events_mem script w
  = (outcome_of (Run srv k (map fst script) w).1, (Run srv k (map fst script) w).2).
Proof.
  intros Hev Hb Hmem. unfold Run_alloc, Run.
  destruct (run_prologue srv k w) as [[[] | e] v]; [| done]. rewrite Hev. clear Hev.
  revert v. induction Hmem as [| r script Hr _ IH]; intros v; [done |].
  cbn [map while_true while_true_alloc]. rewrite (loop_body_alloc_ok srv r v Hb Hr).
  destruct (loop_body srv r.1 v) as [[[] | e] v1]; [apply IH | done | done].
Qed.





